(** * Bingo generator: the AI client adapter

    A shallow embedding of the two versions of the Gemini service module
    (prompt construction, remote call, reply cleaning and JSON decoding) and
    the properties its specification states about them.

    JavaScript strings are sequences of UTF-16 code units; they are modelled
    as [list N].  A thrown exception is a value of type [JsError]; a function
    that may throw returns a [completion].  Logging ([console.error]) has no
    effect on results and is left out; [await] is sequencing. *)

From Stdlib Require Import NArith ZArith String Ascii Bool Lia DecimalString List.
From Stdlib Require DecimalN DecimalPos Finite.
Import ListNotations.
Local Open Scope N_scope.
Set Warnings "-register-all".

(** ** Strings *)

Module JsString.

Definition jsstring := list N.

(** A literal of printable ASCII characters. *)
Definition lit (s : string) : jsstring := map N_of_ascii (list_ascii_of_string s).

(** The same, with every apostrophe standing for a double quote (U+0022):
    used to write JSON texts. *)
Definition quoted (s : string) : jsstring :=
  map (fun c => if c =? 39 then 34 else c) (lit s).

Definition dquote : N := 34.
Definition newline : jsstring := [10].

(** [a === b] on strings. *)
Fixpoint streq (a b : jsstring) : bool :=
  match a, b with
  | [], [] => true
  | x :: a', y :: b' => (x =? y) && streq a' b'
  | _, _ => false
  end.

(** [s.startsWith(p)], returning what follows the prefix. *)
Fixpoint dropPrefix (p s : jsstring) : option jsstring :=
  match p, s with
  | [], _ => Some s
  | x :: p', y :: s' => if x =? y then dropPrefix p' s' else None
  | _ :: _, [] => None
  end.

(** [hay.includes(needle)] *)
Fixpoint includes (needle hay : jsstring) : bool :=
  match dropPrefix needle hay with
  | Some _ => true
  | None => match hay with
            | [] => false
            | _ :: hay' => includes needle hay'
            end
  end.

(** ECMAScript WhiteSpace and LineTerminator code points: what [\s] matches
    and what [trim] removes. *)
Definition isSpace (c : N) : bool :=
  (c =? 9) || (c =? 10) || (c =? 11) || (c =? 12) || (c =? 13) || (c =? 32)
  || (c =? 160) || (c =? 5760) || ((8192 <=? c) && (c <=? 8202))
  || (c =? 8232) || (c =? 8233) || (c =? 8239) || (c =? 8287)
  || (c =? 12288) || (c =? 65279).

(** [.] without the [s] flag: anything but a line terminator. *)
Definition isLineTerminator (c : N) : bool :=
  (c =? 10) || (c =? 13) || (c =? 8232) || (c =? 8233).
Definition notLineTerminator (c : N) : bool := negb (isLineTerminator c).

(** [\w] *)
Definition isWord (c : N) : bool :=
  ((48 <=? c) && (c <=? 57)) || ((65 <=? c) && (c <=? 90))
  || ((97 <=? c) && (c <=? 122)) || (c =? 95).

Fixpoint trimStart (s : jsstring) : jsstring :=
  match s with
  | c :: s' => if isSpace c then trimStart s' else s
  | [] => []
  end.

Definition trimEnd (s : jsstring) : jsstring := rev (trimStart (rev s)).

(** [s.trim()] *)
Definition trim (s : jsstring) : jsstring := trimEnd (trimStart s).

(** A non-negative integer in a template literal. *)
Definition decimal (n : N) : jsstring := lit (NilZero.string_of_uint (N.to_uint n)).

End JsString.
Import JsString.

(** ** Regular expressions

    The five patterns of the module are sequences of literal text, greedy
    repetitions of one character class ([\s*], [\w+], [(.+)]) and [$], with or
    without a leading [^].  [matchHere] is the backtracking matcher at one
    start position; [exec] tries the start positions from the left. *)

Module RegExp.

Inductive atom :=
| Chars (s : jsstring)
| Many (cls : N -> bool) (atLeastOne capture : bool)
| AtEnd.

Record regex := { fromStart : bool; body : list atom }.

(** Greedy repetition: the longest run first, then shorter ones. *)
Fixpoint greedy {A} (cls : N -> bool) (k : jsstring -> jsstring -> option A)
    (s : jsstring) : option A :=
  match s with
  | c :: s' =>
      if cls c
      then match greedy cls (fun m r => k (c :: m) r) s' with
           | Some a => Some a
           | None => k [] s
           end
      else k [] s
  | [] => k [] []
  end.

(** The captures and the text left after the match. *)
Fixpoint matchHere (r : list atom) : jsstring -> option (list jsstring * jsstring) :=
  match r with
  | [] => fun s => Some ([], s)
  | Chars l :: r' => fun s =>
      match dropPrefix l s with
      | Some s' => matchHere r' s'
      | None => None
      end
  | AtEnd :: r' => fun s =>
      match s with
      | [] => matchHere r' []
      | _ :: _ => None
      end
  | Many cls plus cap :: r' => fun s =>
      greedy cls
        (fun m rest =>
           match m, plus with
           | [], true => None
           | _, _ =>
               match matchHere r' rest with
               | Some (caps, tail) => Some (if cap then m :: caps else caps, tail)
               | None => None
               end
           end) s
  end.

Record matched := { before : jsstring; groups : list jsstring; after : jsstring }.

Fixpoint search (r : list atom) (skipped s : jsstring) : option matched :=
  match matchHere r s with
  | Some (caps, tail) => Some {| before := rev skipped; groups := caps; after := tail |}
  | None => match s with
            | c :: s' => search r (c :: skipped) s'
            | [] => None
            end
  end.

Definition exec (re : regex) (s : jsstring) : option matched :=
  if fromStart re
  then match matchHere (body re) s with
       | Some (caps, tail) => Some {| before := []; groups := caps; after := tail |}
       | None => None
       end
  else search (body re) [] s.

(** [s.replace(re, '')] for a pattern without the [g] flag. *)
Definition remove (re : regex) (s : jsstring) : jsstring :=
  match exec re s with
  | Some m => before m ++ after m
  | None => s
  end.

(** [s.match(re)]: the capture groups, when the pattern matches. *)
Definition captures (re : regex) (s : jsstring) : option (list jsstring) :=
  option_map groups (exec re s).

End RegExp.
Import RegExp.

(** ** JSON

    [JSON.parse] of ECMA-262: a lexer (one pass over the code units) and a
    parser over its tokens.  A number keeps its exact decimal value
    [mant * 10 ^ exp10] with its sign; an object keeps its members in the
    order of first insertion, a repeated key overwriting the earlier value. *)

Module Json.

Inductive json :=
| JNull
| JBool (b : bool)
| JNumber (neg : bool) (mant : N) (exp10 : Z)
| JString (s : jsstring)
| JArray (elems : list json)
| JObject (members : list (jsstring * json)).

Inductive token :=
| TLBrace | TRBrace | TLBracket | TRBracket | TColon | TComma
| TValue (v : json).

Inductive lstate :=
| Idle
| Word (rest : jsstring) (v : json)
| Str (acc : jsstring)
| Esc (acc : jsstring)
| Hex (acc : jsstring) (todo : nat) (code : N)
| Minus
| Zero (neg : bool)
| Int (neg : bool) (m : N)
| Dot (neg : bool) (m : N)
| Frac (neg : bool) (m : N) (e : Z)
| Exp (neg : bool) (m : N) (e : Z)
| ExpSign (neg : bool) (m : N) (e : Z) (eneg : bool)
| ExpDigits (neg : bool) (m : N) (e : Z) (eneg : bool) (x : N).

Definition digit (c : N) : option N :=
  if (48 <=? c) && (c <=? 57) then Some (c - 48) else None.

Definition hexDigit (c : N) : option N :=
  if (48 <=? c) && (c <=? 57) then Some (c - 48)
  else if (65 <=? c) && (c <=? 70) then Some (c - 55)
  else if (97 <=? c) && (c <=? 102) then Some (c - 87)
  else None.

(** JSON white space: tab, line feed, carriage return, space. *)
Definition isJsonSpace (c : N) : bool :=
  (c =? 9) || (c =? 10) || (c =? 13) || (c =? 32).

Definition isExponentMark (c : N) : bool := (c =? 101) || (c =? 69).

Definition idle (c : N) : option (list token * lstate) :=
  if isJsonSpace c then Some ([], Idle)
  else if c =? 123 then Some ([TLBrace], Idle)
  else if c =? 125 then Some ([TRBrace], Idle)
  else if c =? 91 then Some ([TLBracket], Idle)
  else if c =? 93 then Some ([TRBracket], Idle)
  else if c =? 58 then Some ([TColon], Idle)
  else if c =? 44 then Some ([TComma], Idle)
  else if c =? 34 then Some ([], Str [])
  else if c =? 45 then Some ([], Minus)
  else if c =? 48 then Some ([], Zero false)
  else if c =? 116 then Some ([], Word (lit "rue") (JBool true))
  else if c =? 102 then Some ([], Word (lit "alse") (JBool false))
  else if c =? 110 then Some ([], Word (lit "ull") JNull)
  else match digit c with
       | Some d => Some ([], Int false d)
       | None => None
       end.

(** A number ends at [c]: emit it and read [c] afresh. *)
Definition endNumber (neg : bool) (m : N) (e : Z) (c : N) : option (list token * lstate) :=
  match idle c with
  | Some (out, st) => Some (TValue (JNumber neg m e) :: out, st)
  | None => None
  end.

Definition exponent (e : Z) (eneg : bool) (x : N) : Z :=
  if eneg then (e - Z.of_N x)%Z else (e + Z.of_N x)%Z.

Definition step (st : lstate) (c : N) : option (list token * lstate) :=
  match st with
  | Idle => idle c
  | Word rest v =>
      match rest with
      | [] => None
      | x :: rest' =>
          if c =? x
          then match rest' with
               | [] => Some ([TValue v], Idle)
               | _ :: _ => Some ([], Word rest' v)
               end
          else None
      end
  | Str acc =>
      if c =? 34 then Some ([TValue (JString (rev acc))], Idle)
      else if c =? 92 then Some ([], Esc acc)
      else if c <? 32 then None
      else Some ([], Str (c :: acc))
  | Esc acc =>
      if c =? 34 then Some ([], Str (34 :: acc))
      else if c =? 92 then Some ([], Str (92 :: acc))
      else if c =? 47 then Some ([], Str (47 :: acc))
      else if c =? 98 then Some ([], Str (8 :: acc))
      else if c =? 102 then Some ([], Str (12 :: acc))
      else if c =? 110 then Some ([], Str (10 :: acc))
      else if c =? 114 then Some ([], Str (13 :: acc))
      else if c =? 116 then Some ([], Str (9 :: acc))
      else if c =? 117 then Some ([], Hex acc 4 0)
      else None
  | Hex acc todo code =>
      match hexDigit c, todo with
      | Some d, 1%nat => Some ([], Str (code * 16 + d :: acc))
      | Some d, S n => Some ([], Hex acc n (code * 16 + d))
      | _, _ => None
      end
  | Minus =>
      if c =? 48 then Some ([], Zero true)
      else match digit c with
           | Some d => Some ([], Int true d)
           | None => None
           end
  | Zero neg =>
      if c =? 46 then Some ([], Dot neg 0)
      else if isExponentMark c then Some ([], Exp neg 0 0%Z)
      else endNumber neg 0 0%Z c
  | Int neg m =>
      match digit c with
      | Some d => Some ([], Int neg (m * 10 + d))
      | None =>
          if c =? 46 then Some ([], Dot neg m)
          else if isExponentMark c then Some ([], Exp neg m 0%Z)
          else endNumber neg m 0%Z c
      end
  | Dot neg m =>
      match digit c with
      | Some d => Some ([], Frac neg (m * 10 + d) (-1)%Z)
      | None => None
      end
  | Frac neg m e =>
      match digit c with
      | Some d => Some ([], Frac neg (m * 10 + d) (e - 1)%Z)
      | None =>
          if isExponentMark c then Some ([], Exp neg m e)
          else endNumber neg m e c
      end
  | Exp neg m e =>
      if c =? 43 then Some ([], ExpSign neg m e false)
      else if c =? 45 then Some ([], ExpSign neg m e true)
      else match digit c with
           | Some d => Some ([], ExpDigits neg m e false d)
           | None => None
           end
  | ExpSign neg m e eneg =>
      match digit c with
      | Some d => Some ([], ExpDigits neg m e eneg d)
      | None => None
      end
  | ExpDigits neg m e eneg x =>
      match digit c with
      | Some d => Some ([], ExpDigits neg m e eneg (x * 10 + d))
      | None => endNumber neg m (exponent e eneg x) c
      end
  end.

(** At the end of the text. *)
Definition finish (st : lstate) : option (list token) :=
  match st with
  | Idle => Some []
  | Zero neg => Some [TValue (JNumber neg 0 0%Z)]
  | Int neg m => Some [TValue (JNumber neg m 0%Z)]
  | Frac neg m e => Some [TValue (JNumber neg m e)]
  | ExpDigits neg m e eneg x => Some [TValue (JNumber neg m (exponent e eneg x))]
  | _ => None
  end.

Fixpoint lexFrom (st : lstate) (s : jsstring) : option (list token) :=
  match s with
  | [] => finish st
  | c :: s' =>
      match step st c with
      | Some (out, st') => option_map (app out) (lexFrom st' s')
      | None => None
      end
  end.

Definition lex (s : jsstring) : option (list token) := lexFrom Idle s.

(** [CreateDataProperty]: a repeated key keeps its place and takes the new value. *)
Fixpoint setMember (k : jsstring) (v : json) (ms : list (jsstring * json))
    : list (jsstring * json) :=
  match ms with
  | [] => [(k, v)]
  | (k', v') :: ms' => if streq k k' then (k, v) :: ms' else (k', v') :: setMember k v ms'
  end.

(** Recursive descent; [fuel] bounds the nesting and the number of members. *)
Fixpoint parseValue (fuel : nat) (ts : list token) : option (json * list token) :=
  match fuel with
  | O => None
  | S fuel' =>
      match ts with
      | TValue v :: r => Some (v, r)
      | TLBracket :: TRBracket :: r => Some (JArray [], r)
      | TLBracket :: r =>
          match parseValue fuel' r with
          | Some (v, r') =>
              match parseElements fuel' [v] r' with
              | Some (vs, r'') => Some (JArray vs, r'')
              | None => None
              end
          | None => None
          end
      | TLBrace :: TRBrace :: r => Some (JObject [], r)
      | TLBrace :: TValue (JString k) :: TColon :: r =>
          match parseValue fuel' r with
          | Some (v, r') =>
              match parseMembers fuel' [(k, v)] r' with
              | Some (ms, r'') => Some (JObject ms, r'')
              | None => None
              end
          | None => None
          end
      | _ => None
      end
  end
with parseElements (fuel : nat) (acc : list json) (ts : list token)
    : option (list json * list token) :=
  match fuel with
  | O => None
  | S fuel' =>
      match ts with
      | TRBracket :: r => Some (rev acc, r)
      | TComma :: r =>
          match parseValue fuel' r with
          | Some (v, r') => parseElements fuel' (v :: acc) r'
          | None => None
          end
      | _ => None
      end
  end
with parseMembers (fuel : nat) (acc : list (jsstring * json)) (ts : list token)
    : option (list (jsstring * json) * list token) :=
  match fuel with
  | O => None
  | S fuel' =>
      match ts with
      | TRBrace :: r => Some (acc, r)
      | TComma :: TValue (JString k) :: TColon :: r =>
          match parseValue fuel' r with
          | Some (v, r') => parseMembers fuel' (setMember k v acc) r'
          | None => None
          end
      | _ => None
      end
  end.

(** The value of a JSON text, or [None] where [JSON.parse] throws a
    [SyntaxError]. *)
Definition parse (s : jsstring) : option json :=
  match lex s with
  | Some ts =>
      match parseValue (S (length ts)) ts with
      | Some (v, []) => Some v
      | _ => None
      end
  | None => None
  end.

End Json.
Import Json.

(** ** Run-time values, exceptions and the host *)

Module Js.

Record JsError := { name : jsstring; message : jsstring }.

(** [new Error(msg)] *)
Definition newError (msg : jsstring) : JsError := {| name := lit "Error"; message := msg |}.

Inductive completion (A : Type) :=
| Return (a : A)
| Throw (e : JsError).
Arguments Return {A} a.
Arguments Throw {A} e.

Definition bind {A B} (c : completion A) (k : A -> completion B) : completion B :=
  match c with
  | Return a => k a
  | Throw e => Throw e
  end.

(** [try { body } catch (error) { handler }] *)
Definition tryCatch {A} (body : completion A) (handler : JsError -> completion A)
    : completion A :=
  match body with
  | Return a => Return a
  | Throw e => handler e
  end.

(** The message texts of the engine's own exceptions are implementation
    defined; they are parameters of the model. *)
Record Engine := {
  (** of the [SyntaxError] that [JSON.parse] throws on a text *)
  syntaxErrorMessage : jsstring -> jsstring;
  (** of the [TypeError] for reading the named property of [null] *)
  nullReadMessage : jsstring -> jsstring;
  (** of the [TypeError] for calling the named expression that is no function *)
  notAFunctionMessage : jsstring -> jsstring
}.

Definition JSON_parse (E : Engine) (text : jsstring) : completion json :=
  match parse text with
  | Some v => Return v
  | None => Throw {| name := lit "SyntaxError"; message := syntaxErrorMessage E text |}
  end.

(** A value is a JSON value or [undefined] ([None]). *)
Definition value := option json.

(** A number that the code does nothing with but interpolate it into a
    template literal is observed through its string conversion alone.  It is
    modelled by that text, so every number is covered as the engine prints
    it: [5] as [5], [-1] as [-1], [2.5] as [2.5], [1e21] as [1e+21], [NaN]
    as [NaN]. *)
Record JsNumber := { numberText : jsstring }.

(** A decimal [mant * 10 ^ exp10] whose nearest double is zero: zero itself,
    or at most [2 ^ -1075] (ties go to the even neighbour, which is zero). *)
Definition roundsToZero (mant : N) (exp10 : Z) : bool :=
  (mant =? 0) || ((exp10 <? 0)%Z && (Z.of_N mant * 2 ^ 1075 <=? 10 ^ (- exp10))%Z).

Definition truthy (v : value) : bool :=
  match v with
  | None => false
  | Some JNull => false
  | Some (JBool b) => b
  | Some (JNumber _ m e) => negb (roundsToZero m e)
  | Some (JString s) => match s with [] => false | _ :: _ => true end
  | Some (JArray _) => true
  | Some (JObject _) => true
  end.

(** [v || d] *)
Definition orElse (v : value) (d : json) : json :=
  match v with
  | Some x => if truthy v then x else d
  | None => d
  end.

Fixpoint lookup (k : jsstring) (ms : list (jsstring * json)) : value :=
  match ms with
  | [] => None
  | (k', v) :: ms' => if streq k k' then Some v else lookup k ms'
  end.

(** [v.k] for the property names the module reads ([items], [problem],
    [answer]): none of them is a property of a string, number, boolean or
    array, or inherited by an object. *)
Definition getProp (E : Engine) (v : json) (k : jsstring) : completion value :=
  match v with
  | JNull => Throw {| name := lit "TypeError"; message := nullReadMessage E k |}
  | JObject ms => Return (lookup k ms)
  | _ => Return None
  end.

End Js.
Import Js.

Declare Scope completion_scope.
Delimit Scope completion_scope with completion.
Notation "x <- c ;; k" := (bind c (fun x => k))
  (at level 61, c at next level, right associativity) : completion_scope.
Local Open Scope completion_scope.

(** ** The SDK's request and response, and the application's types *)

Module Gemini.

Record Client := { apiKey : option jsstring }.

Record InlineData := { mimeType : jsstring; data : jsstring }.

Inductive Part :=
| Inline (inlineData : InlineData)
| Text (text : jsstring).

Inductive Schema :=
| STRING
| BOOLEAN
| ARRAY (items : Schema)
| OBJECT (properties : list (jsstring * Schema)).

Record Request := {
  model : jsstring;
  contents : list Part;
  systemInstruction : option jsstring;
  responseMimeType : jsstring;
  responseSchema : Schema
}.

Record Response := { text : option jsstring }.

(** [../types] *)
Record SubjectContext := { subject : jsstring; isMath : bool }.

(** [problem] and [answer] are declared strings; at run time they hold
    whatever truthy value the reply had in the field, or the sentinel. *)
Record BingoItem := { id : jsstring; problem : json; answer : json }.

(** The object a [SubjectContext] literal builds. *)
Definition subjectObject (c : SubjectContext) : json :=
  JObject [(lit "subject", JString (subject c)); (lit "isMath", JBool (isMath c))].

Inductive Mode := similar | exact.

(** Where the module runs: the engine, [process.env.API_KEY] and the remote
    service behind [ai.models.generateContent]. *)
Record Host := {
  engine : Engine;
  API_KEY : option jsstring;
  generateContent : Client -> Request -> completion Response
}.

End Gemini.
Import Gemini.

(** ** What both versions of the service share

    [parseDataUrl] and the construction of the two requests are the same
    text in both files. *)

Module Shared.

Definition joinLines (ls : list jsstring) : jsstring :=
  match ls with
  | [] => []
  | l :: ls' => l ++ flat_map (fun x => newline ++ x) ls'
  end.

(** [/^data:(.+);base64,(.+)$/] *)
Definition dataUrlPattern : regex :=
  {| fromStart := true;
     body := [Chars (lit "data:"); Many notLineTerminator true true;
              Chars (lit ";base64,"); Many notLineTerminator true true; AtEnd] |}.

(** [/^data:image\/\w+;base64,/] *)
Definition imagePrefixPattern : regex :=
  {| fromStart := true;
     body := [Chars (lit "data:image/"); Many isWord true false; Chars (lit ";base64,")] |}.

(** [matches] has three entries (the match and its two groups) whenever it
    is not [null]. *)
Definition parseDataUrl (dataUrl : jsstring) : InlineData :=
  match captures dataUrlPattern dataUrl with
  | Some [m; d] => {| mimeType := m; data := d |}
  | _ => {| mimeType := lit "image/jpeg"; data := remove imagePrefixPattern dataUrl |}
  end.

(** [if (imageBase64) parts.push({ inlineData: ... })]: an absent, [null] or
    empty image adds nothing. *)
Definition imageParts (imageBase64 : option jsstring) : list Part :=
  match imageBase64 with
  | Some ((_ :: _) as image) => [Inline (parseDataUrl image)]
  | _ => []
  end.

Definition hasImage (imageBase64 : option jsstring) : bool :=
  match imageBase64 with
  | Some (_ :: _) => true
  | _ => false
  end.

Definition modelName : jsstring := lit "gemini-2.5-flash".

Definition subjectPrompt (topic : jsstring) : jsstring :=
  lit "Analyseer de input (tekst: " ++ [dquote] ++ topic ++ [dquote]
  ++ lit ") en/of de afbeelding." ++ newline ++ newline
  ++ lit "1. Bepaal het schoolvak (bijv. Wiskunde, Geschiedenis)." ++ newline
  ++ lit "2. Zet 'isMath' op true ALLEEN als het Wiskunde of een vak met formules is (LaTeX nodig)."
  ++ newline ++ newline.

Definition subjectRequest (topic : jsstring) (imageBase64 : option jsstring) : Request :=
  {| model := modelName;
     contents := imageParts imageBase64 ++ [Text (subjectPrompt topic)];
     systemInstruction := None;
     responseMimeType := lit "application/json";
     responseSchema := OBJECT [(lit "subject", STRING); (lit "isMath", BOOLEAN)] |}.

Definition formatInstruction (context : SubjectContext) : jsstring :=
  if isMath context
  then joinLines
         [ [];
           lit "      NOTATIE (WISKUNDE):";
           lit "      - Gebruik LaTeX code voor symbolen in zowel 'problem' als 'answer'.";
           lit "      - GEEN dollartekens ($) rondom de formules.";
           lit "      - Gebruik \times voor keer, \frac{a}{b} voor breuken.";
           lit "    " ]
  else joinLines
         [ [];
           lit "      NOTATIE (TEKST):";
           lit "      - Gebruik GEEN LaTeX. Gewone tekst.";
           lit "      - 'problem': De vraag/omschrijving die de leraar voorleest.";
           lit "      - 'answer': Het KORTE antwoord (1-4 woorden).";
           lit "    " ].

(** [${count}] is the string conversion of the number. *)
Definition itemsSystemInstruction (context : SubjectContext) (count : JsNumber) : jsstring :=
  joinLines
    [ [];
      lit "    Je bent een docent voor het vak " ++ subject context ++ lit ".";
      lit "    Genereer output voor een Bingo spel.";
      lit "    " ++ formatInstruction context;
      lit "    Variatie: Zorg voor minimaal " ++ numberText count ++ lit " unieke antwoorden.";
      lit "  " ].

Definition userPromptText (topicInput : jsstring) (count : JsNumber)
    (imageBase64 : option jsstring) (mode : Mode) : jsstring :=
  match hasImage imageBase64, mode with
  | true, exact =>
      lit "Maak een lijst van PRECIES " ++ numberText count
      ++ lit " items. EXTRACTIE: Neem inhoud EXACT over uit de afbeelding. Als er minder dan "
      ++ numberText count
      ++ lit " items op de afbeelding staan, genereer dan ZELF extra items in dezelfde stijl om aan het totaal te komen."
  | true, similar =>
      lit "Genereer " ++ numberText count
      ++ lit " NIEUWE unieke items die qua stijl en niveau lijken op de afbeelding."
  | false, _ =>
      lit "Onderwerp: " ++ [dquote] ++ topicInput ++ [dquote] ++ lit ". Genereer precies "
      ++ numberText count ++ lit " unieke items (vraag + antwoord)."
  end.

Definition itemsRequest (context : SubjectContext) (topicInput : jsstring) (count : JsNumber)
    (imageBase64 : option jsstring) (mode : Mode) : Request :=
  {| model := modelName;
     contents := imageParts imageBase64 ++ [Text (userPromptText topicInput count imageBase64 mode)];
     systemInstruction := Some (itemsSystemInstruction context count);
     responseMimeType := lit "application/json";
     responseSchema :=
       OBJECT [(lit "items", ARRAY (OBJECT [(lit "problem", STRING); (lit "answer", STRING)]))] |}.

(** [item.problem || "Fout"] *)
Definition sentinel : json := JString (lit "Fout").

(** [itemsArray.map((item, index) => ...)] over an array, from [index] on. *)
Fixpoint mapItems (E : Engine) (index : N) (itemsArray : list json)
    : completion (list BingoItem) :=
  match itemsArray with
  | [] => Return []
  | item :: rest =>
      p <- getProp E item (lit "problem") ;;
      a <- getProp E item (lit "answer") ;;
      others <- mapItems E (index + 1) rest ;;
      Return ({| id := lit "item-" ++ decimal index;
                 problem := orElse p sentinel;
                 answer := orElse a sentinel |} :: others)
  end.

(** [const itemsArray = data.items || []; return itemsArray.map(...)] *)
Definition itemsOf (E : Engine) (data : json) : completion (list BingoItem) :=
  its <- getProp E data (lit "items") ;;
  match orElse its (JArray []) with
  | JArray itemsArray => mapItems E 0 itemsArray
  | _ => Throw {| name := lit "TypeError";
                  message := notAFunctionMessage E (lit "itemsArray.map") |}
  end.

(** [response.text || ""] *)
Definition textOrEmpty (response : Response) : jsstring :=
  match text response with
  | Some t => t
  | None => []
  end.

(** [{ subject: "Algemeen", isMath: false }] *)
Definition Algemeen : SubjectContext := {| subject := lit "Algemeen"; isMath := false |}.

End Shared.
Import Shared.

(** ** The service that validates its key (the first version) *)

Module GeminiService.

Definition keyErrorMessage : jsstring :=
  lit "API Key ontbreekt of is ongeldig. Controleer Vercel instellingen.".

(** [error.message.includes("API Key")] *)
Definition mentionsApiKey (error : JsError) : bool :=
  includes (lit "API Key") (message error).

Definition isInvalidKey (key : jsstring) : bool :=
  match key with
  | [] => true
  | _ :: _ => includes (lit "YOUR_API_KEY") key || streq key (lit "undefined")
  end.

Definition getAIClient (key : option jsstring) : completion Client :=
  match key with
  | None => Throw (newError keyErrorMessage)
  | Some k =>
      if isInvalidKey k
      then Throw (newError keyErrorMessage)
      else Return {| apiKey := Some k |}
  end.

Definition fenceJson : regex :=
  {| fromStart := true; body := [Chars (lit "```json"); Many isSpace false false] |}.
Definition fenceOpen : regex :=
  {| fromStart := true; body := [Chars (lit "```"); Many isSpace false false] |}.
Definition fenceClose : regex :=
  {| fromStart := false; body := [Many isSpace false false; Chars (lit "```"); AtEnd] |}.

Definition cleanJSON (text : jsstring) : jsstring :=
  match text with
  | [] => []
  | _ :: _ => trim (remove fenceClose (remove fenceOpen (remove fenceJson text)))
  end.

Section WithHost.
Variable h : Host.

(** The result is what [JSON.parse] gives: the cast to [SubjectContext]
    checks nothing. *)
Definition detectSubject (topic : jsstring) (imageBase64 : option jsstring)
    : completion json :=
  ai <- getAIClient (API_KEY h) ;;
  tryCatch
    (response <- generateContent h ai (subjectRequest topic imageBase64) ;;
     match cleanJSON (textOrEmpty response) with
     | (_ :: _) as cleanText => JSON_parse (engine h) cleanText
     | [] => Throw (newError (lit "Geen antwoord van AI (Leeg)"))
     end)
    (fun error =>
       if mentionsApiKey error then Throw error
       else Return (subjectObject Algemeen)).

Definition generateBingoItems (context : SubjectContext) (topicInput : jsstring)
    (count : JsNumber) (imageBase64 : option jsstring) (mode : Mode)
    : completion (list BingoItem) :=
  ai <- getAIClient (API_KEY h) ;;
  tryCatch
    (response <- generateContent h ai
                   (itemsRequest context topicInput count imageBase64 mode) ;;
     match cleanJSON (textOrEmpty response) with
     | [] => Throw (newError (lit "Geen tekst ontvangen van AI"))
     | (_ :: _) as cleanText =>
         data <- JSON_parse (engine h) cleanText ;;
         itemsOf (engine h) data
     end)
    (fun error =>
       if mentionsApiKey error then Throw error
       else Throw (newError (lit "Kon geen items genereren: " ++ message error))).

End WithHost.

End GeminiService.
Import GeminiService.

(** ** The service without key validation (the second version) *)

Module GeminiServiceV2.

Section WithHost.
Variable h : Host.

(** [const ai = new GoogleGenAI({ apiKey: process.env.API_KEY })] *)
Definition ai : Client := {| apiKey := API_KEY h |}.

Definition detectSubject (topic : jsstring) (imageBase64 : option jsstring)
    : completion json :=
  tryCatch
    (response <- generateContent h ai (subjectRequest topic imageBase64) ;;
     match text response with
     | Some ((_ :: _) as t) => JSON_parse (engine h) t
     | _ => Throw (newError (lit "Empty response from AI"))
     end)
    (fun _ => Return (subjectObject Algemeen)).

Definition generateBingoItems (context : SubjectContext) (topicInput : jsstring)
    (count : JsNumber) (imageBase64 : option jsstring) (mode : Mode)
    : completion (list BingoItem) :=
  tryCatch
    (response <- generateContent h ai
                   (itemsRequest context topicInput count imageBase64 mode) ;;
     match text response with
     | Some ((_ :: _) as t) =>
         data <- JSON_parse (engine h) t ;;
         itemsOf (engine h) data
     | _ => Throw (newError (lit "No text response"))
     end)
    (fun _ => Throw (newError (lit "Kon geen items genereren. Probeer het opnieuw."))).

End WithHost.

End GeminiServiceV2.

(** ** Vocabulary of the statements *)

(** Every code unit of [s] lies in the class. *)
Definition all (cls : N -> bool) (s : jsstring) : Prop := Forall (fun c => cls c = true) s.

(** What the patterns denote: [matches r s caps tail] when [r] matches a
    prefix of [s] with captures [caps] and leaves [tail]. *)
Inductive matches : list atom -> jsstring -> list jsstring -> jsstring -> Prop :=
| matches_nil s : matches [] s [] s
| matches_chars l r s caps tail :
    matches r s caps tail -> matches (Chars l :: r) (l ++ s) caps tail
| matches_end r caps tail :
    matches r [] caps tail -> matches (AtEnd :: r) [] caps tail
| matches_many cls plus cap r m s caps tail :
    all cls m -> (plus = true -> m <> []) -> matches r s caps tail ->
    matches (Many cls plus cap :: r) (m ++ s) (if cap then m :: caps else caps) tail.

(** [data:<mime>;base64,<payload>] on one line, with a mime type and a payload. *)
Definition dataUrlShape (s : jsstring) : Prop :=
  exists mime payload,
    s = lit "data:" ++ mime ++ lit ";base64," ++ payload
    /\ mime <> [] /\ payload <> []
    /\ all notLineTerminator mime /\ all notLineTerminator payload.

(** [s] is [rest] behind a [data:image/<word>;base64,] prefix. *)
Definition imagePrefixed (s rest : jsstring) : Prop :=
  exists w, s = lit "data:image/" ++ w ++ lit ";base64," ++ rest /\ w <> [] /\ all isWord w.

(** [item.k] of an item that is not [null]. *)
Definition fieldOf (item : json) (k : jsstring) : value :=
  match item with
  | JObject ms => lookup k ms
  | _ => None
  end.

(** An item of the reply with both fields present as non-empty strings. *)
Definition wellFormedItem (item : json) : Prop :=
  exists p a, p <> [] /\ a <> []
    /\ fieldOf item (lit "problem") = Some (JString p)
    /\ fieldOf item (lit "answer") = Some (JString a).

(** The [BingoItem] made of the item at [index]. *)
Definition bingoItemAt (index : nat) (item : json) : BingoItem :=
  {| id := lit "item-" ++ decimal (N.of_nat index);
     problem := orElse (fieldOf item (lit "problem")) sentinel;
     answer := orElse (fieldOf item (lit "answer")) sentinel |}.

(** A reply wrapped in a Markdown fence, with white space [ws1] and [ws2]
    between the fence and the text. *)
Definition fencedWith (ws1 ws2 reply : jsstring) : jsstring :=
  lit "```json" ++ ws1 ++ reply ++ ws2 ++ lit "```".

(** The usual layout: [```json], the text, [```], each on a line of its own. *)
Definition fenced (reply : jsstring) : jsstring := fencedWith newline newline reply.

Definition wiskundeReply : jsstring := quoted "{'subject':'Wiskunde','isMath':true}".

Definition wiskunde : SubjectContext := {| subject := lit "Wiskunde"; isMath := true |}.

(** [new Error(`Kon geen items genereren: ${cause.message}`)] *)
Definition generationError (cause : JsError) : JsError :=
  newError (lit "Kon geen items genereren: " ++ message cause).

(** *** Sample hosts

    An engine with fixed message texts, and hosts whose remote service
    answers every request with one reply or fails with one error. *)

Definition plainEngine : Engine :=
  {| syntaxErrorMessage := fun _ => lit "JSON.parse: unexpected character";
     nullReadMessage := fun k => lit "null has no properties: " ++ k;
     notAFunctionMessage := fun f => f ++ lit " is not a function" |}.

Definition replying (key : option jsstring) (reply : option jsstring) : Host :=
  {| engine := plainEngine;
     API_KEY := key;
     generateContent := fun _ _ => Return {| text := reply |} |}.

Definition failing (key : option jsstring) (e : JsError) : Host :=
  {| engine := plainEngine;
     API_KEY := key;
     generateContent := fun _ _ => Throw e |}.



Definition sampleKey : option jsstring := Some (lit "AIzaSyExample").

(** The counts [5] and [2]. *)
Definition five : JsNumber := {| numberText := lit "5" |}.
Definition two : JsNumber := {| numberText := lit "2" |}.

Definition fiveItems : jsstring :=
  quoted "{'items':[{'problem':'2+2','answer':'4'},{'problem':'3+3','answer':'6'},{'problem':'4+4','answer':'8'},{'problem':'5+5','answer':'10'},{'problem':'6+6','answer':'12'}]}".

Definition fiveItemsArray : list json :=
  map (fun pa => JObject [(lit "problem", JString (lit (fst pa))); (lit "answer", JString (lit (snd pa)))])
      [("2+2", "4"); ("3+3", "6"); ("4+4", "8"); ("5+5", "10"); ("6+6", "12")]%string.

(** A reply whose first item lacks its answer and whose second item has an
    empty problem. *)
Definition patchyItems : jsstring :=
  quoted "{'items':[{'problem':'2+2'},{'problem':'','answer':'6'}]}".

Definition patchyItemsArray : list json :=
  [JObject [(lit "problem", JString (lit "2+2"))];
   JObject [(lit "problem", JString []); (lit "answer", JString (lit "6"))]].

(** The [SyntaxError] of [JSON.parse] on a text. *)
Definition syntaxError (E : Engine) (t : jsstring) : JsError :=
  {| name := lit "SyntaxError"; message := syntaxErrorMessage E t |}.

(** In a state the lexer reaches, what is left of a literal name is made of
    lower-case letters. *)
Definition isLower (c : N) : bool := (97 <=? c) && (c <=? 122).

Definition reachable (st : lstate) : Prop :=
  match st with
  | Word rest _ => all isLower rest
  | _ => True
  end.

(** The parser [run] with fuel [f] leaves a shorter input and gives the same
    result with any fuel from the length of its input on. *)
Definition enough {A} (run : nat -> list token -> option (A * list token)) (f : nat) : Prop :=
  forall ts a r, run f ts = Some (a, r) ->
    (length r < length ts)%nat
    /\ forall f', (length ts <= f')%nat -> run f' ts = Some (a, r).

(** Case analysis on the comparisons in a hypothesis, closing the branches
    arithmetic rules out. *)
Ltac decide_tests H :=
  repeat (match type of H with
          | context [?a =? ?b] => destruct (N.eqb_spec a b); try lia
          | context [?a <=? ?b] => destruct (N.leb_spec a b); try lia
          | context [?a <? ?b] => destruct (N.ltb_spec a b); try lia
          end; cbn [andb orb negb] in H; cbv iota in H).

(** *** Vocabulary of the further properties *)

(** [s] occurs in [t] as one contiguous piece. *)
Definition infix (s t : jsstring) : Prop := exists pre post, t = pre ++ s ++ post.

(** No white space at either end. *)
Definition trimmed (s : jsstring) : Prop :=
  (forall c r, s = c :: r -> isSpace c = false)
  /\ (forall r z, s = r ++ [z] -> isSpace z = false).

(** A reply inside a fence that does not name a language. *)
Definition plainFenced (ws1 ws2 reply : jsstring) : jsstring :=
  lit "```" ++ ws1 ++ reply ++ ws2 ++ lit "```".

(** [`data:${mimeType};base64,${data}`] *)
Definition dataUrlOf (d : InlineData) : jsstring :=
  lit "data:" ++ mimeType d ++ lit ";base64," ++ data d.

(** The ids [item-0], [item-1], ... of a batch of [n] items. *)
Definition batchIds (n : nat) : list jsstring :=
  map (fun i => lit "item-" ++ decimal (N.of_nat i)) (seq 0 n).

(** A reply without content: no text at all, white space only, or a fence
    with nothing but white space in it. *)
Definition blankReply (reply : option jsstring) : Prop :=
  reply = None
  \/ exists t, reply = Some t
       /\ (all isSpace t
           \/ exists ws, all isSpace ws
                /\ (t = fencedWith ws [] [] \/ t = plainFenced ws [] [])).

(** Neither field of the item is falsy. *)
Definition filledIn (b : BingoItem) : Prop :=
  truthy (Some (problem b)) = true /\ truthy (Some (answer b)) = true.

(** The one message of the second version's item generation. *)
Definition retryError : JsError := newError (lit "Kon geen items genereren. Probeer het opnieuw.").

(** The [TypeError] for reading property [k] of [null]. *)
Definition nullReadError (E : Engine) (k : jsstring) : JsError :=
  {| name := lit "TypeError"; message := nullReadMessage E k |}.

(** The [TypeError] for [itemsArray.map] on a value without that method. *)
Definition noMapError (E : Engine) : JsError :=
  {| name := lit "TypeError"; message := notAFunctionMessage E (lit "itemsArray.map") |}.

(** What the handler of the first version's item generation throws for a
    failure [cause] inside its [try] block. *)
Definition rethrown (cause : JsError) : JsError :=
  if mentionsApiKey cause then cause else generationError cause.

(** * Properties *)

(** ** The JSON reader on sample texts *)

Example parse_object :
  parse (quoted "{'subject':'Wiskunde','isMath':true}")
  = Some (JObject [(lit "subject", JString (lit "Wiskunde")); (lit "isMath", JBool true)]).
Proof. vm_compute. reflexivity. Qed.

Example parse_nested :
  parse (quoted " { 'a' : [1, -2.50e+3, 'xA\n', [], {}], 'a': null } ")
  = Some (JObject [(lit "a", JNull)]).
Proof. vm_compute. reflexivity. Qed.

Example parse_array :
  parse (quoted "[0, 1.5e-2, 'x\u00e9\n', [], {}, false]")
  = Some (JArray [JNumber false 0 0; JNumber false 15 (-3); JString (lit "x" ++ [233; 10]);
                  JArray []; JObject []; JBool false]).
Proof. vm_compute. reflexivity. Qed.

Example parse_rejects :
  map parse [lit "01"; lit "[1,]"; lit "{,}"; lit "tru"; lit "1 2"; lit ""; lit "-"; lit "1.";
             quoted "'a"; quoted "{'a' 1}"; lit "[1"; lit "nulll"; lit "API Key"]
  = repeat None 13.
Proof. vm_compute. reflexivity. Qed.

(** ** Strings and patterns *)

Lemma streq_true (a b : jsstring) : streq a b = true <-> a = b.
Proof.
  revert b; induction a as [|x a IH]; intros [|y b]; simpl; split; try congruence.
  - intros H. apply andb_true_iff in H as [Hx Hab].
    apply N.eqb_eq in Hx. apply IH in Hab. congruence.
  - intros H. injection H as -> ->. rewrite N.eqb_refl. simpl. now apply IH.
Qed.

Lemma dropPrefix_Some (p s r : jsstring) : dropPrefix p s = Some r <-> s = p ++ r.
Proof.
  revert s; induction p as [|x p IH]; intros s; simpl.
  - split; congruence.
  - destruct s as [|y s].
    + split; discriminate.
    + destruct (N.eqb_spec x y) as [->|Hne].
      * rewrite IH. split; congruence.
      * split; [discriminate | intros H; injection H; congruence].
Qed.

Lemma dropPrefix_app (p r : jsstring) : dropPrefix p (p ++ r) = Some r.
Proof. now apply dropPrefix_Some. Qed.

(** The greedy repetition only ever hands its continuation a split of the
    input whose first part lies in the class... *)
Lemma greedy_sound {A} (cls : N -> bool) (s : jsstring) :
  forall (k : jsstring -> jsstring -> option A) (a : A),
    greedy cls k s = Some a ->
    exists m r, s = m ++ r /\ all cls m /\ k m r = Some a.
Proof.
  induction s as [|c s IH]; intros k a H; simpl in H.
  - exists [], []. repeat split; [constructor | assumption].
  - destruct (cls c) eqn:Hc.
    + destruct (greedy cls (fun m r => k (c :: m) r) s) eqn:Hg.
      * injection H as ->. apply IH in Hg as (m & r & -> & Hm & Hk).
        exists (c :: m), r. repeat split; [constructor; assumption | assumption].
      * exists [], (c :: s). repeat split; [constructor | assumption].
    + exists [], (c :: s). repeat split; [constructor | assumption].
Qed.

(** ... and it tries every such split before it gives up. *)
Lemma greedy_complete {A} (cls : N -> bool) (s : jsstring) :
  forall (k : jsstring -> jsstring -> option A),
    greedy cls k s = None ->
    forall m r, s = m ++ r -> all cls m -> k m r = None.
Proof.
  induction s as [|c s IH]; intros k H m r Hs Hm; simpl in H.
  - symmetry in Hs. apply app_eq_nil in Hs as [-> ->]. assumption.
  - destruct m as [|x m].
    + simpl in Hs. subst r.
      destruct (cls c); [destruct (greedy cls _ s); [discriminate|]|]; assumption.
    + simpl in Hs. injection Hs as <- ->.
      inversion Hm as [|? ? Hx Hm']; subst. rewrite Hx in H.
      destruct (greedy cls (fun m r => k (c :: m) r) (m ++ r)) eqn:Hg; [discriminate|].
      exact (IH _ Hg m r eq_refl Hm').
Qed.

(** A run of class characters followed by a character outside the class
    splits a string in one way only. *)
Lemma run_unique (cls : N -> bool) (c : N) (m1 m2 r1 r2 : jsstring) :
  all cls m1 -> all cls m2 -> cls c = false ->
  m1 ++ c :: r1 = m2 ++ c :: r2 -> m1 = m2 /\ r1 = r2.
Proof.
  intros H1; revert m2; induction H1 as [|x m1 Hx H1 IH]; intros m2 H2 Hc E.
  - destruct m2 as [|y m2]; simpl in E.
    + injection E as ->. split; reflexivity.
    + injection E as <- _. inversion H2; congruence.
  - destruct m2 as [|y m2]; simpl in E.
    + injection E as -> _. congruence.
    + injection E as <- E. inversion H2; subst.
      destruct (IH m2) as [-> ->]; auto.
Qed.

Lemma matchHere_sound (r : list atom) :
  forall s caps tail, matchHere r s = Some (caps, tail) -> matches r s caps tail.
Proof.
  induction r as [|a r IH]; intros s caps tail H.
  - injection H as <- <-. constructor.
  - destruct a as [l|cls plus cap|]; cbn [matchHere] in H.
    + destruct (dropPrefix l s) as [s'|] eqn:Hd; [|discriminate].
      apply dropPrefix_Some in Hd as ->. constructor. auto.
    + apply greedy_sound in H as (m & rest & -> & Hm & Hk).
      assert (Hne : plus = true -> m <> []).
      { intros -> ->. discriminate. }
      assert (Hk' : match matchHere r rest with
                    | Some (caps0, tail0) => Some (if cap then m :: caps0 else caps0, tail0)
                    | None => None
                    end = Some (caps, tail)).
      { destruct m; destruct plus; solve [discriminate | assumption]. }
      destruct (matchHere r rest) as [[caps0 tail0]|] eqn:Hr; [|discriminate].
      injection Hk' as <- <-. constructor; auto.
    + destruct s; [|discriminate]. constructor. auto.
Qed.

Lemma matchHere_complete (r : list atom) (s tail : jsstring) (caps : list jsstring) :
  matches r s caps tail -> matchHere r s <> None.
Proof.
  induction 1 as [s|l r s caps' tail' _ IH|r caps' tail' _ IH
                  |cls plus cap r m s caps' tail' Hm Hne _ IH]; cbn [matchHere].
  - discriminate.
  - rewrite dropPrefix_app. assumption.
  - assumption.
  - intros Hg. eapply greedy_complete with (m := m) (r := s) in Hg; auto.
    destruct (matchHere r s) as [[c t]|]; [|congruence].
    destruct m; destruct plus; try discriminate. now apply Hne.
Qed.

(** ** Data URLs *)

Lemma dataUrl_captures_shape (s : jsstring) (g : list jsstring) :
  captures dataUrlPattern s = Some g -> dataUrlShape s.
Proof.
  unfold captures, exec, dataUrlPattern; cbn [fromStart body].
  destruct (matchHere _ s) as [[caps tail]|] eqn:H; [|discriminate]. intros _.
  apply matchHere_sound in H.
  inversion H as [|? ? s1 ? ? H1| |]; subst; clear H.
  inversion H1 as [| | |? ? ? ? mime s2 ? ? Hmime Hne H2]; subst; clear H1.
  inversion H2 as [|? ? s3 ? ? H3| |]; subst; clear H2.
  inversion H3 as [| | |? ? ? ? payload s4 ? ? Hpay Hne' H4]; subst; clear H3.
  inversion H4; subst.
  exists mime, payload. rewrite app_nil_r. repeat split; auto.
Qed.

Lemma parseDataUrl_fallback (s : jsstring) :
  ~ dataUrlShape s ->
  parseDataUrl s = {| mimeType := lit "image/jpeg"; data := remove imagePrefixPattern s |}.
Proof.
  intros Hno. unfold parseDataUrl.
  destruct (captures dataUrlPattern s) as [g|] eqn:Hc; [|reflexivity].
  exfalso. apply Hno. eapply dataUrl_captures_shape; eassumption.
Qed.

Lemma imagePrefix_sound (s tail : jsstring) (caps : list jsstring) :
  matches (body imagePrefixPattern) s caps tail -> imagePrefixed s tail.
Proof.
  unfold imagePrefixPattern; cbn [body]. intros H.
  inversion H as [|? ? s1 ? ? H1| |]; subst; clear H.
  inversion H1 as [| | |? ? ? ? w s2 ? ? Hw Hne H2]; subst; clear H1.
  inversion H2 as [|? ? s3 ? ? H3| |]; subst; clear H2.
  inversion H3; subst.
  exists w. repeat split; auto.
Qed.

Lemma imagePrefix_complete (s tail : jsstring) :
  imagePrefixed s tail -> matches (body imagePrefixPattern) s [] tail.
Proof.
  intros (w & -> & Hne & Hw). unfold imagePrefixPattern; cbn [body].
  constructor. apply (matches_many isWord true false); auto.
  constructor. constructor.
Qed.

Lemma semicolon_not_word : isWord 59 = false.
Proof. reflexivity. Qed.

Lemma imagePrefixed_unique (s rest rest' : jsstring) :
  imagePrefixed s rest -> imagePrefixed s rest' -> rest = rest'.
Proof.
  intros (w & -> & _ & Hw) (w' & E & _ & Hw').
  apply app_inv_head in E.
  change (lit ";base64,") with (59 :: lit "base64,") in E. simpl app in E.
  apply (run_unique isWord 59) in E as [_ E]; auto using semicolon_not_word.
  now injection E.
Qed.

Lemma remove_imagePrefix_strips (s rest : jsstring) :
  imagePrefixed s rest -> remove imagePrefixPattern s = rest.
Proof.
  intros Hp. unfold remove, exec. change (fromStart imagePrefixPattern) with true. cbv iota.
  destruct (matchHere (body imagePrefixPattern) s) as [[caps tail]|] eqn:Hm.
  - apply matchHere_sound, imagePrefix_sound in Hm.
    cbn [before after app]. eapply imagePrefixed_unique; eassumption.
  - exfalso. eapply matchHere_complete; [|exact Hm].
    apply imagePrefix_complete. eassumption.
Qed.

Lemma remove_imagePrefix_keeps (s : jsstring) :
  (forall rest, ~ imagePrefixed s rest) -> remove imagePrefixPattern s = s.
Proof.
  intros Hno. unfold remove, exec. change (fromStart imagePrefixPattern) with true. cbv iota.
  destruct (matchHere (body imagePrefixPattern) s) as [[caps tail]|] eqn:Hm; [|reflexivity].
  exfalso. apply matchHere_sound, imagePrefix_sound in Hm. exact (Hno _ Hm).
Qed.

Lemma dataUrl_shape_captures (s : jsstring) :
  dataUrlShape s -> captures dataUrlPattern s <> None.
Proof.
  intros (mime & payload & -> & Hm & Hp & Hmime & Hpay).
  unfold captures, exec. change (fromStart dataUrlPattern) with true. cbv iota.
  destruct (matchHere (body dataUrlPattern) _) as [[caps tail]|] eqn:H; [discriminate|].
  exfalso. eapply matchHere_complete; [|exact H].
  unfold dataUrlPattern; cbn [body].
  constructor. apply (matches_many notLineTerminator true true); auto.
  constructor.
  pose proof (matches_many notLineTerminator true true [AtEnd] payload [] [] []
                Hpay (fun _ => Hp) (matches_end _ _ _ (matches_nil []))) as M.
  rewrite app_nil_r in M. exact M.
Qed.

(** C8. [parseDataUrl] splits [data:image/png;base64,AAAA] into its mime type
    and payload; on every string that is not of the shape
    [data:<mime>;base64,<payload>] it answers [image/jpeg], with a leading
    [data:image/<word>;base64,] removed from the data when there is one and
    the string itself as data otherwise. *)
Theorem parseDataUrl_png_and_fallback :
  parseDataUrl (lit "data:image/png;base64,AAAA")
  = {| mimeType := lit "image/png"; data := lit "AAAA" |}
  /\ forall s, ~ dataUrlShape s ->
       mimeType (parseDataUrl s) = lit "image/jpeg"
       /\ (forall rest, imagePrefixed s rest -> data (parseDataUrl s) = rest)
       /\ ((forall rest, ~ imagePrefixed s rest) -> data (parseDataUrl s) = s).
Proof.
  split; [vm_compute; reflexivity|].
  intros s Hno. rewrite (parseDataUrl_fallback s Hno). cbn [mimeType data].
  split; [reflexivity|]. split.
  - apply remove_imagePrefix_strips.
  - apply remove_imagePrefix_keeps.
Qed.

Lemma parseDataUrl_png_and_fallback_witness :
  mimeType (parseDataUrl (lit "data:image/png;base64,")) = lit "image/jpeg"
  /\ data (parseDataUrl (lit "data:image/png;base64,")) = [].
Proof.
  assert (Hno : ~ dataUrlShape (lit "data:image/png;base64,")).
  { intros H. apply dataUrl_shape_captures in H. apply H. vm_compute. reflexivity. }
  destruct (proj2 parseDataUrl_png_and_fallback _ Hno) as (Hmime & Hstrip & _).
  split; [exact Hmime|].
  apply Hstrip. exists (lit "png"). repeat split.
  - discriminate.
  - repeat constructor.
Defined.

(** ** The client factory *)

(** C1. [getAIClient] throws its configuration error for a key that is
    missing ([undefined] or empty), contains the placeholder [YOUR_API_KEY]
    or is the string [undefined], and returns a client holding the key for
    every other key. *)
Theorem getAIClient_validates_key (key : option jsstring) :
  ((key = None \/ key = Some []
    \/ (exists k, key = Some k /\ includes (lit "YOUR_API_KEY") k = true)
    \/ key = Some (lit "undefined"))
   -> getAIClient key = Throw (newError keyErrorMessage)
      /\ mentionsApiKey (newError keyErrorMessage) = true)
  /\ (forall k, key = Some k -> k <> [] ->
        includes (lit "YOUR_API_KEY") k = false -> k <> lit "undefined" ->
        getAIClient key = Return {| apiKey := Some k |}).
Proof.
  split.
  - intros H. split; [|reflexivity].
    destruct H as [-> | [-> | [(k & -> & Hk) | ->]]]; try reflexivity.
    unfold getAIClient, isInvalidKey. rewrite Hk.
    destruct k; reflexivity.
  - intros k -> Hne Hp Hu. unfold getAIClient, isInvalidKey. rewrite Hp.
    destruct k as [|c k]; [congruence|].
    destruct (streq (c :: k) (lit "undefined")) eqn:E; [|reflexivity].
    apply streq_true in E. congruence.
Qed.

Lemma getAIClient_validates_key_witness :
  getAIClient (Some (lit "xxYOUR_API_KEYxx")) = Throw (newError keyErrorMessage)
  /\ getAIClient (Some (lit "AIzaSyExample")) = Return {| apiKey := Some (lit "AIzaSyExample") |}.
Proof.
  split.
  - apply (proj1 (getAIClient_validates_key (Some (lit "xxYOUR_API_KEYxx")))).
    right; right; left. exists (lit "xxYOUR_API_KEYxx"). split; reflexivity.
  - apply (proj2 (getAIClient_validates_key (Some (lit "AIzaSyExample"))) _ eq_refl).
    + discriminate.
    + reflexivity.
    + discriminate.
Defined.

(** ** Item generation *)

Lemma parse_empty : parse [] = None.
Proof. reflexivity. Qed.

Lemma JSON_parse_Some (E : Engine) (t : jsstring) (v : json) :
  parse t = Some v -> JSON_parse E t = Return v.
Proof. unfold JSON_parse. now intros ->. Qed.

Lemma JSON_parse_None (E : Engine) (t : jsstring) :
  parse t = None ->
  JSON_parse E t = Throw (syntaxError E t).
Proof. unfold JSON_parse. now intros ->. Qed.

Lemma getProp_fieldOf (E : Engine) (item : json) (k : jsstring) :
  item <> JNull -> getProp E item k = Return (fieldOf item k).
Proof. intros H. destruct item; try reflexivity. congruence. Qed.

Lemma mapItems_nonNull (E : Engine) (l : list json) :
  Forall (fun item => item <> JNull) l ->
  forall index : nat,
  exists result,
    mapItems E (N.of_nat index) l = Return result
    /\ length result = length l
    /\ forall i item, nth_error l i = Some item ->
         nth_error result i = Some (bingoItemAt (index + i) item).
Proof.
  induction 1 as [|item l Hitem _ IH]; intros index.
  - exists []. repeat split. intros [|i] item H; discriminate.
  - destruct (IH (S index)) as (rest & Hrest & Hlen & Hnth).
    exists (bingoItemAt index item :: rest).
    cbn [mapItems]. rewrite !getProp_fieldOf by assumption. cbn [bind].
    replace (N.of_nat index + 1) with (N.of_nat (S index)) by lia.
    rewrite Hrest. cbn [bind]. repeat split.
    + simpl. now rewrite Hlen.
    + intros [|i] x Hx; cbn [nth_error] in *.
      * injection Hx as <-. now rewrite Nat.add_0_r.
      * rewrite (Hnth i x Hx). now rewrite Nat.add_succ_r.
Qed.

Lemma itemsOf_array (E : Engine) (data : json) (l : list json) :
  fieldOf data (lit "items") = Some (JArray l) ->
  itemsOf E data = mapItems E 0 l.
Proof.
  intros H. unfold itemsOf. rewrite getProp_fieldOf.
  - rewrite H. reflexivity.
  - intros ->. discriminate.
Qed.

Lemma orElse_falsy (v : value) (d : json) : truthy v = false -> orElse v d = d.
Proof. unfold orElse. destruct v; [intros ->|]; reflexivity. Qed.

Lemma itemsOf_without_items (E : Engine) (data : json) :
  data <> JNull -> truthy (fieldOf data (lit "items")) = false -> itemsOf E data = Return [].
Proof.
  intros Hd Hf. unfold itemsOf. rewrite (getProp_fieldOf E data _ Hd). cbn [bind].
  now rewrite (orElse_falsy _ _ Hf).
Qed.

Section Generation.
Variable h : Host.
Variable context : SubjectContext.
Variable topicInput : jsstring.
Variable count : JsNumber.
Variable imageBase64 : option jsstring.
Variable mode : Mode.
Variable ai : Client.
Variable response : Response.
Hypothesis key_ok : getAIClient (API_KEY h) = Return ai.
Hypothesis replied :
  generateContent h ai (itemsRequest context topicInput count imageBase64 mode)
  = Return response.

Lemma generateBingoItems_empty :
  cleanJSON (textOrEmpty response) = [] ->
  generateBingoItems h context topicInput count imageBase64 mode
  = Throw (generationError (newError (lit "Geen tekst ontvangen van AI"))).
Proof.
  intros H. unfold generateBingoItems. rewrite key_ok. cbn [bind].
  rewrite replied. cbn [bind]. rewrite H. reflexivity.
Qed.

Lemma generateBingoItems_decoded (data : json) :
  parse (cleanJSON (textOrEmpty response)) = Some data ->
  generateBingoItems h context topicInput count imageBase64 mode
  = tryCatch (itemsOf (engine h) data)
      (fun error => if mentionsApiKey error then Throw error
                    else Throw (generationError error)).
Proof.
  intros H. unfold generateBingoItems. rewrite key_ok. cbn [bind].
  rewrite replied. cbn [bind].
  destruct (cleanJSON (textOrEmpty response)) as [|c t] eqn:E.
  - rewrite parse_empty in H. discriminate.
  - cbv iota. rewrite (JSON_parse_Some _ _ _ H). reflexivity.
Qed.


Lemma generateBingoItems_items (data : json) (l : list json) :
  parse (cleanJSON (textOrEmpty response)) = Some data ->
  fieldOf data (lit "items") = Some (JArray l) ->
  Forall (fun item => item <> JNull) l ->
  exists result,
    generateBingoItems h context topicInput count imageBase64 mode = Return result
    /\ length result = length l
    /\ forall i item, nth_error l i = Some item ->
         nth_error result i = Some (bingoItemAt i item).
Proof.
  intros Hparse Hitems Hl.
  destruct (mapItems_nonNull (engine h) l Hl 0) as (result & Hmap & Hlen & Hnth).
  exists result. rewrite (generateBingoItems_decoded _ Hparse), (itemsOf_array _ _ _ Hitems).
  change (N.of_nat 0) with 0 in Hmap. rewrite Hmap. auto.
Qed.

End Generation.

Lemma wellFormed_kept (i : nat) (item : json) :
  wellFormedItem item ->
  (Some (problem (bingoItemAt i item)), Some (answer (bingoItemAt i item)))
  = (fieldOf item (lit "problem"), fieldOf item (lit "answer")).
Proof.
  intros (p & a & Hp & Ha & Ep & Ea). unfold bingoItemAt; cbn [problem answer].
  rewrite Ep, Ea. destruct p; [congruence|]. destruct a; [congruence|]. reflexivity.
Qed.

Lemma wellFormed_nonNull (l : list json) :
  Forall wellFormedItem l -> Forall (fun item => item <> JNull) l.
Proof.
  apply Forall_impl. intros item (p & a & _ & _ & Ep & _) ->. discriminate.
Qed.

(** C5. With [count = 5] and a reply whose [items] array holds exactly five
    well-formed objects, [generateBingoItems] returns five items whose ids are
    [item-0] to [item-4] and whose problems and answers are those of the
    reply, in the reply's order. *)
Theorem generateBingoItems_five_in_order
    (h : Host) (context : SubjectContext) (topicInput : jsstring)
    (imageBase64 : option jsstring) (mode : Mode)
    (ai : Client) (response : Response) (data : json) (l : list json) :
  getAIClient (API_KEY h) = Return ai ->
  generateContent h ai (itemsRequest context topicInput five imageBase64 mode) = Return response ->
  parse (cleanJSON (textOrEmpty response)) = Some data ->
  fieldOf data (lit "items") = Some (JArray l) ->
  length l = 5%nat ->
  Forall wellFormedItem l ->
  exists result,
    generateBingoItems h context topicInput five imageBase64 mode = Return result
    /\ map id result = [lit "item-0"; lit "item-1"; lit "item-2"; lit "item-3"; lit "item-4"]
    /\ map (fun b => (Some (problem b), Some (answer b))) result
       = map (fun item => (fieldOf item (lit "problem"), fieldOf item (lit "answer"))) l.
Proof.
  intros Hkey Hreply Hparse Hitems Hlen Hwf.
  destruct (generateBingoItems_items h context topicInput five imageBase64 mode ai response
              Hkey Hreply data l Hparse Hitems (wellFormed_nonNull l Hwf))
    as (result & Hrun & Hlen' & Hnth).
  exists result. split; [exact Hrun|].
  rewrite Hlen in Hlen'.
  destruct l as [|i0 [|i1 [|i2 [|i3 [|i4 [|? ?]]]]]]; try discriminate.
  destruct result as [|b0 [|b1 [|b2 [|b3 [|b4 [|? ?]]]]]]; try discriminate.
  pose proof (Hnth 0%nat i0 eq_refl) as H0. pose proof (Hnth 1%nat i1 eq_refl) as H1.
  pose proof (Hnth 2%nat i2 eq_refl) as H2. pose proof (Hnth 3%nat i3 eq_refl) as H3.
  pose proof (Hnth 4%nat i4 eq_refl) as H4.
  cbn [nth_error] in H0, H1, H2, H3, H4.
  injection H0 as ->. injection H1 as ->. injection H2 as ->.
  injection H3 as ->. injection H4 as ->.
  split; [reflexivity|].
  repeat match goal with H : Forall _ (_ :: _) |- _ => inversion H; subst; clear H end.
  cbn [map]. rewrite !wellFormed_kept by assumption. reflexivity.
Qed.

Lemma generateBingoItems_five_in_order_witness :
  exists result,
    generateBingoItems (replying sampleKey (Some fiveItems)) wiskunde (lit "tafels") five None similar
    = Return result
    /\ map id result = [lit "item-0"; lit "item-1"; lit "item-2"; lit "item-3"; lit "item-4"]
    /\ map (fun b => (Some (problem b), Some (answer b))) result
       = map (fun item => (fieldOf item (lit "problem"), fieldOf item (lit "answer")))
           fiveItemsArray.
Proof.
  apply (generateBingoItems_five_in_order
           (replying sampleKey (Some fiveItems)) wiskunde (lit "tafels") None similar
           {| apiKey := sampleKey |} {| text := Some fiveItems |}
           (JObject [(lit "items", JArray fiveItemsArray)]) fiveItemsArray).
  - reflexivity.
  - reflexivity.
  - vm_compute. reflexivity.
  - reflexivity.
  - reflexivity.
  - repeat constructor;
      match goal with
      | |- wellFormedItem (JObject [(_, JString ?p); (_, JString ?a)]) =>
          exists p, a; repeat split; discriminate
      end.
Defined.

Lemma orElse_string (s : jsstring) (d : json) : s <> [] -> orElse (Some (JString s)) d = JString s.
Proof. destruct s; [congruence | reflexivity]. Qed.

(** C6. When the reply's [items] array has no [null] element, the call
    returns one [BingoItem] per element; an element without [problem] (or
    without [answer]) gets the text [Fout] in that field, and its neighbours
    and its other field stay as the reply gave them. *)
Theorem generateBingoItems_repairs_missing_fields
    (h : Host) (context : SubjectContext) (topicInput : jsstring) (count : JsNumber)
    (imageBase64 : option jsstring) (mode : Mode)
    (ai : Client) (response : Response) (data : json) (l : list json) :
  getAIClient (API_KEY h) = Return ai ->
  generateContent h ai (itemsRequest context topicInput count imageBase64 mode) = Return response ->
  parse (cleanJSON (textOrEmpty response)) = Some data ->
  fieldOf data (lit "items") = Some (JArray l) ->
  Forall (fun item => item <> JNull) l ->
  exists result,
    generateBingoItems h context topicInput count imageBase64 mode = Return result
    /\ length result = length l
    /\ forall i item, nth_error l i = Some item ->
         exists b, nth_error result i = Some b
           /\ id b = lit "item-" ++ decimal (N.of_nat i)
           /\ (fieldOf item (lit "problem") = None -> problem b = JString (lit "Fout"))
           /\ (fieldOf item (lit "answer") = None -> answer b = JString (lit "Fout"))
           /\ (forall s, s <> [] -> fieldOf item (lit "problem") = Some (JString s) ->
                 problem b = JString s)
           /\ (forall s, s <> [] -> fieldOf item (lit "answer") = Some (JString s) ->
                 answer b = JString s).
Proof.
  intros Hkey Hreply Hparse Hitems Hl.
  destruct (generateBingoItems_items h context topicInput count imageBase64 mode ai response
              Hkey Hreply data l Hparse Hitems Hl) as (result & Hrun & Hlen & Hnth).
  exists result. repeat split; try assumption.
  intros i item Hi. exists (bingoItemAt i item). split; [auto|].
  unfold bingoItemAt; cbn [id problem answer]. repeat split.
  - now intros ->.
  - now intros ->.
  - intros s Hs ->. now apply orElse_string.
  - intros s Hs ->. now apply orElse_string.
Qed.

Lemma generateBingoItems_repairs_missing_fields_witness :
  exists result,
    generateBingoItems (replying sampleKey (Some patchyItems)) wiskunde (lit "tafels") two None similar
    = Return result
    /\ length result = 2%nat
    /\ forall i item, nth_error patchyItemsArray i = Some item ->
         exists b, nth_error result i = Some b
           /\ id b = lit "item-" ++ decimal (N.of_nat i)
           /\ (fieldOf item (lit "problem") = None -> problem b = JString (lit "Fout"))
           /\ (fieldOf item (lit "answer") = None -> answer b = JString (lit "Fout"))
           /\ (forall s, s <> [] -> fieldOf item (lit "problem") = Some (JString s) ->
                 problem b = JString s)
           /\ (forall s, s <> [] -> fieldOf item (lit "answer") = Some (JString s) ->
                 answer b = JString s).
Proof.
  apply (generateBingoItems_repairs_missing_fields
           (replying sampleKey (Some patchyItems)) wiskunde (lit "tafels") two None similar
           {| apiKey := sampleKey |} {| text := Some patchyItems |}
           (JObject [(lit "items", JArray patchyItemsArray)]) patchyItemsArray).
  - reflexivity.
  - reflexivity.
  - vm_compute. reflexivity.
  - reflexivity.
  - repeat constructor; discriminate.
Defined.

(** C10. A field that is present but empty, or falsy in any other way
    ([null], [false], a number that is zero), is replaced by [Fout] just as
    an absent one is. *)
Theorem generateBingoItems_repairs_falsy_fields
    (h : Host) (context : SubjectContext) (topicInput : jsstring) (count : JsNumber)
    (imageBase64 : option jsstring) (mode : Mode)
    (ai : Client) (response : Response) (data : json) (l : list json) :
  getAIClient (API_KEY h) = Return ai ->
  generateContent h ai (itemsRequest context topicInput count imageBase64 mode) = Return response ->
  parse (cleanJSON (textOrEmpty response)) = Some data ->
  fieldOf data (lit "items") = Some (JArray l) ->
  Forall (fun item => item <> JNull) l ->
  exists result,
    generateBingoItems h context topicInput count imageBase64 mode = Return result
    /\ forall i item, nth_error l i = Some item ->
         exists b, nth_error result i = Some b
           /\ (fieldOf item (lit "problem") = Some (JString []) -> problem b = JString (lit "Fout"))
           /\ (fieldOf item (lit "answer") = Some (JString []) -> answer b = JString (lit "Fout"))
           /\ (truthy (fieldOf item (lit "problem")) = false -> problem b = JString (lit "Fout"))
           /\ (truthy (fieldOf item (lit "answer")) = false -> answer b = JString (lit "Fout")).
Proof.
  intros Hkey Hreply Hparse Hitems Hl.
  destruct (generateBingoItems_items h context topicInput count imageBase64 mode ai response
              Hkey Hreply data l Hparse Hitems Hl) as (result & Hrun & Hlen & Hnth).
  exists result. split; [assumption|].
  intros i item Hi. exists (bingoItemAt i item). split; [auto|].
  unfold bingoItemAt; cbn [problem answer]. repeat split.
  - now intros ->.
  - now intros ->.
  - apply orElse_falsy.
  - apply orElse_falsy.
Qed.

Lemma generateBingoItems_repairs_falsy_fields_witness :
  exists result,
    generateBingoItems (replying sampleKey (Some patchyItems)) wiskunde (lit "tafels") two None similar
    = Return result
    /\ forall i item, nth_error patchyItemsArray i = Some item ->
         exists b, nth_error result i = Some b
           /\ (fieldOf item (lit "problem") = Some (JString []) -> problem b = JString (lit "Fout"))
           /\ (fieldOf item (lit "answer") = Some (JString []) -> answer b = JString (lit "Fout"))
           /\ (truthy (fieldOf item (lit "problem")) = false -> problem b = JString (lit "Fout"))
           /\ (truthy (fieldOf item (lit "answer")) = false -> answer b = JString (lit "Fout")).
Proof.
  apply (generateBingoItems_repairs_falsy_fields
           (replying sampleKey (Some patchyItems)) wiskunde (lit "tafels") two None similar
           {| apiKey := sampleKey |} {| text := Some patchyItems |}
           (JObject [(lit "items", JArray patchyItemsArray)]) patchyItemsArray).
  - reflexivity.
  - reflexivity.
  - vm_compute. reflexivity.
  - reflexivity.
  - repeat constructor; discriminate.
Defined.

Example patchyItems_result :
  generateBingoItems (replying sampleKey (Some patchyItems)) wiskunde (lit "tafels") two None similar
  = Return [ {| id := lit "item-0"; problem := JString (lit "2+2"); answer := JString (lit "Fout") |};
             {| id := lit "item-1"; problem := JString (lit "Fout"); answer := JString (lit "6") |} ].
Proof. vm_compute. reflexivity. Qed.

(** A reply that parses but carries no items gives the empty list; a [null]
    item makes the whole call fail. *)
Example reply_without_items :
  generateBingoItems (replying sampleKey (Some (lit "{}"))) wiskunde (lit "tafels") five None similar
  = Return [].
Proof. vm_compute. reflexivity. Qed.

Example reply_with_null_item :
  generateBingoItems (replying sampleKey (Some (quoted "{'items':[null]}")))
    wiskunde (lit "tafels") five None similar
  = Throw (newError (lit "Kon geen items genereren: null has no properties: problem")).
Proof. vm_compute. reflexivity. Qed.




(** ** Subject detection *)

Section Detection.
Variable h : Host.
Variable topic : jsstring.
Variable imageBase64 : option jsstring.
Variable ai : Client.
Hypothesis key_ok : getAIClient (API_KEY h) = Return ai.

Lemma detectSubject_remote_failure (e : JsError) :
  generateContent h ai (subjectRequest topic imageBase64) = Throw e ->
  detectSubject h topic imageBase64
  = if mentionsApiKey e then Throw e else Return (subjectObject Algemeen).
Proof.
  intros H. unfold detectSubject. rewrite key_ok. cbn [bind]. rewrite H. reflexivity.
Qed.

Variable response : Response.
Hypothesis replied :
  generateContent h ai (subjectRequest topic imageBase64) = Return response.

Lemma detectSubject_empty :
  cleanJSON (textOrEmpty response) = [] ->
  detectSubject h topic imageBase64 = Return (subjectObject Algemeen).
Proof.
  intros H. unfold detectSubject. rewrite key_ok. cbn [bind].
  rewrite replied. cbn [bind]. rewrite H. reflexivity.
Qed.

Lemma detectSubject_decoded (v : json) :
  parse (cleanJSON (textOrEmpty response)) = Some v ->
  detectSubject h topic imageBase64 = Return v.
Proof.
  intros H. unfold detectSubject. rewrite key_ok. cbn [bind].
  rewrite replied. cbn [bind].
  destruct (cleanJSON (textOrEmpty response)) as [|c t] eqn:E.
  - rewrite parse_empty in H. discriminate.
  - cbv iota. rewrite (JSON_parse_Some _ _ _ H). reflexivity.
Qed.

Lemma detectSubject_undecodable :
  cleanJSON (textOrEmpty response) <> [] ->
  parse (cleanJSON (textOrEmpty response)) = None ->
  let cause := syntaxError (engine h) (cleanJSON (textOrEmpty response)) in
  detectSubject h topic imageBase64
  = if mentionsApiKey cause then Throw cause else Return (subjectObject Algemeen).
Proof.
  intros Hne H cause. unfold detectSubject. rewrite key_ok. cbn [bind].
  rewrite replied. cbn [bind].
  destruct (cleanJSON (textOrEmpty response)) as [|c t] eqn:E; [congruence|].
  cbv iota. rewrite (JSON_parse_None _ _ H). reflexivity.
Qed.

End Detection.

Lemma detectSubject_invalid_key (h : Host) (topic : jsstring) (imageBase64 : option jsstring)
    (e : JsError) :
  getAIClient (API_KEY h) = Throw e -> detectSubject h topic imageBase64 = Throw e.
Proof. intros H. unfold detectSubject. now rewrite H. Qed.

Lemma getAIClient_error (key : option jsstring) (e : JsError) :
  getAIClient key = Throw e -> e = newError keyErrorMessage.
Proof.
  unfold getAIClient. destruct key as [k|]; [destruct (isInvalidKey k)|]; congruence.
Qed.





(** ** The lexer at the ends of a text *)

Lemma option_map_Some {A B} (f : A -> B) (o : option A) (y : B) :
  option_map f o = Some y -> exists x, o = Some x /\ y = f x.
Proof. destruct o; simpl; intros H; [injection H as <-; eauto | discriminate]. Qed.

Lemma idle_reachable (c : N) (out : list token) (st : lstate) :
  idle c = Some (out, st) -> reachable st.
Proof.
  unfold idle.
  repeat match goal with
         | |- context [if ?b then _ else _] => destruct b
         end;
    try (intros H; injection H as <- <-; simpl; try exact I; repeat constructor).
  destruct (digit c); intros H; [injection H as <- <-; exact I | discriminate].
Qed.

Lemma step_reachable (st : lstate) (c : N) (out : list token) (st' : lstate) :
  reachable st -> step st c = Some (out, st') -> reachable st'.
Proof.
  intros Hst H. destruct st; simpl in H;
    repeat match type of H with
           | context [endNumber _ _ _ _] => unfold endNumber in H
           | context [match idle ?c with _ => _ end] =>
               let E := fresh "E" in
               destruct (idle c) as [[? ?]|] eqn:E; [apply idle_reachable in E|]
           | context [match ?r with [] => _ | _ :: _ => _ end] => destruct r
           | context [if ?b then _ else _] => destruct b
           | context [match digit ?c with _ => _ end] => destruct (digit c)
           | context [match hexDigit ?c with _ => _ end] => destruct (hexDigit c)
           | context [match ?n with O => _ | S _ => _ end] => destruct n
           end;
    try discriminate; try (injection H as <- <-); try exact I; try assumption.
  - eapply idle_reachable; eassumption.
  - simpl in Hst. inversion Hst; subst. simpl. inversion H2; subst. constructor; assumption.
Qed.

Lemma isSpace_cases (c : N) :
  isSpace c = true -> c = 9 \/ c = 10 \/ c = 11 \/ c = 12 \/ c = 13 \/ c = 32 \/ 160 <= c.
Proof.
  unfold isSpace. intros H. decide_tests H; try discriminate; lia.
Qed.

Lemma lower_not_space (x : N) : isLower x = true -> isSpace x = true -> False.
Proof.
  unfold isLower. intros Hl Hs. apply isSpace_cases in Hs. decide_tests Hl; try discriminate; lia.
Qed.

Lemma idle_space (c : N) :
  isSpace c = true -> idle c = if isJsonSpace c then Some ([], Idle) else None.
Proof.
  intros Hs. apply isSpace_cases in Hs.
  destruct Hs as [-> | [-> | [-> | [-> | [-> | [-> | Hs]]]]]]; try reflexivity.
  unfold idle, isJsonSpace, digit.
  repeat (match goal with
          | |- context [?a =? ?b] => destruct (N.eqb_spec a b); try lia
          | |- context [?a <=? ?b] => destruct (N.leb_spec a b); try lia
          end; cbn [andb orb]; cbv iota).
  reflexivity.
Qed.

Lemma lex_one_space (st : lstate) (c : N) (ts : list token) :
  reachable st -> isSpace c = true -> lexFrom st [c] = Some ts -> finish st = Some ts.
Proof.
  intros Hst Hs H. cbn [lexFrom] in H.
  pose proof (idle_space c Hs) as Hidle.
  destruct st; cbn [step] in H; unfold endNumber in H; try rewrite Hidle in H;
    try (destruct (isJsonSpace c); [simpl in H; exact H | discriminate]);
    [ destruct rest as [|x rest]; [discriminate|];
      destruct (N.eqb_spec c x) as [->|]; [|discriminate];
      exfalso; inversion Hst; subst; eapply lower_not_space; eassumption
    | .. ];
    apply isSpace_cases in Hs; unfold digit, hexDigit, isExponentMark in H;
    (destruct Hs as [-> | [-> | [-> | [-> | [-> | [-> | Hs]]]]]];
     [simpl in H; try discriminate .. | decide_tests H; simpl in H; try discriminate]).
  all: try (destruct (isJsonSpace c)); simpl in H; try discriminate; exact H.
Qed.

Lemma lex_one_backtick (st : lstate) : reachable st -> lexFrom st [96] = None.
Proof.
  intros Hst. cbn [lexFrom].
  destruct st; try reflexivity.
  - destruct rest as [|x rest]; [reflexivity|]. cbn [step].
    destruct (N.eqb_spec 96 x) as [<-|]; [|reflexivity].
    inversion Hst; subst. discriminate.
Qed.

Lemma lex_snoc_space (c : N) (s : jsstring) :
  isSpace c = true ->
  forall st ts, reachable st -> lexFrom st (s ++ [c]) = Some ts -> lexFrom st s = Some ts.
Proof.
  intros Hs. induction s as [|d s IH]; intros st ts Hst H.
  - simpl app in H. cbn [lexFrom]. eapply lex_one_space; eassumption.
  - simpl app in H. cbn [lexFrom] in *.
    destruct (step st d) as [[out st']|] eqn:Hstep; [|discriminate].
    apply option_map_Some in H as (r & Hr & ->).
    rewrite (IH st' r); [reflexivity | eapply step_reachable; eassumption | assumption].
Qed.

Lemma lex_snoc_backtick (s : jsstring) :
  forall st, reachable st -> lexFrom st (s ++ [96]) = None.
Proof.
  induction s as [|d s IH]; intros st Hst.
  - now apply lex_one_backtick.
  - simpl app. cbn [lexFrom].
    destruct (step st d) as [[out st']|] eqn:Hstep; [|reflexivity].
    rewrite IH; [reflexivity | eapply step_reachable; eassumption].
Qed.

Lemma lex_trimStart (s : jsstring) (ts : list token) :
  lex s = Some ts -> lex (trimStart s) = Some ts.
Proof.
  unfold lex. induction s as [|c s IH]; intros H; [assumption|].
  cbn [trimStart]. destruct (isSpace c) eqn:Hs; [|assumption].
  apply IH. cbn [lexFrom step] in H. rewrite (idle_space c Hs) in H.
  destruct (isJsonSpace c); [|discriminate].
  destruct (lexFrom Idle s); [exact H | discriminate].
Qed.

Lemma trimEnd_snoc (s : jsstring) (c : N) :
  trimEnd (s ++ [c]) = if isSpace c then trimEnd s else s ++ [c].
Proof.
  unfold trimEnd. rewrite rev_app_distr. cbn [rev app trimStart].
  destruct (isSpace c); [reflexivity|].
  cbn [rev]. now rewrite rev_involutive.
Qed.

Lemma lex_trimEnd (s : jsstring) (ts : list token) :
  lex s = Some ts -> lex (trimEnd s) = Some ts.
Proof.
  unfold lex. induction s as [|c s IH] using rev_ind; intros H; [assumption|].
  rewrite trimEnd_snoc. destruct (isSpace c) eqn:Hs; [|assumption].
  apply IH. eapply lex_snoc_space; [eassumption | exact I | assumption].
Qed.

Lemma lex_trim (s : jsstring) (ts : list token) :
  lex s = Some ts -> lex (trim s) = Some ts.
Proof. intros H. unfold trim. now apply lex_trimEnd, lex_trimStart. Qed.

(** ** Cleaning a reply that is JSON already *)

Lemma search_None (r : list atom) (s : jsstring) :
  forall skipped,
    (forall pre s', s = pre ++ s' -> matchHere r s' = None) ->
    search r skipped s = None.
Proof.
  induction s as [|c s IH]; intros skipped H; cbn [search].
  - now rewrite (H [] [] eq_refl).
  - rewrite (H [] (c :: s) eq_refl). apply IH.
    intros pre s' ->. now apply (H (c :: pre) s').
Qed.

Lemma lex_first_not_backtick (c : N) (s : jsstring) (ts : list token) :
  lex (c :: s) = Some ts -> (96 =? c) = false.
Proof.
  intros H. destruct (N.eqb_spec 96 c) as [<-|]; [discriminate | reflexivity].
Qed.

Lemma fenceClose_absent (s : jsstring) (ts : list token) :
  lex s = Some ts -> remove fenceClose s = s.
Proof.
  intros H. unfold remove, exec. change (fromStart fenceClose) with false. cbv iota.
  rewrite search_None; [reflexivity|].
  intros pre s' ->.
  destruct (matchHere (body fenceClose) s') as [[caps tail]|] eqn:Hm; [exfalso | reflexivity].
  apply matchHere_sound in Hm. unfold fenceClose in Hm; cbn [body] in Hm.
  inversion Hm as [| | |? ? ? ? m s1 ? ? _ _ H1]; subst; clear Hm.
  inversion H1 as [|? ? s2 ? ? H2| |]; subst; clear H1.
  inversion H2; subst.
  unfold lex in H.
  replace (pre ++ m ++ lit "```" ++ []) with ((pre ++ m ++ [96; 96]) ++ [96]) in H
    by (rewrite <- !app_assoc; reflexivity).
  rewrite lex_snoc_backtick in H; [discriminate | exact I].
Qed.

Lemma cleanJSON_of_json (s : jsstring) (ts : list token) :
  lex s = Some ts -> cleanJSON s = trim s.
Proof.
  intros H. destruct s as [|c s]; [reflexivity|].
  pose proof (lex_first_not_backtick c s ts H) as Hc.
  unfold cleanJSON.
  assert (H1 : remove fenceJson (c :: s) = c :: s).
  { unfold remove, exec, fenceJson; cbn [fromStart body matchHere].
    change (lit "```json") with (96 :: lit "``json"). cbn [dropPrefix]. now rewrite Hc. }
  assert (H2 : remove fenceOpen (c :: s) = c :: s).
  { unfold remove, exec, fenceOpen; cbn [fromStart body matchHere].
    change (lit "```") with (96 :: lit "``"). cbn [dropPrefix]. now rewrite Hc. }
  rewrite H1, H2, (fenceClose_absent _ ts H). reflexivity.
Qed.

(** A reply that [JSON.parse] accepts as it stands denotes the same value
    after cleaning. *)
Lemma parse_cleanJSON (s : jsstring) (v : json) :
  parse s = Some v -> parse (cleanJSON s) = Some v.
Proof.
  unfold parse. destruct (lex s) as [ts|] eqn:H; [|discriminate].
  rewrite (cleanJSON_of_json s ts H), (lex_trim s ts H). trivial.
Qed.

(** ** The error policy of subject detection *)

(** C4, as the code has it: an empty reply raises nothing and the fallback
    is [Algemeen], not [General]. *)
Lemma detectSubject_swallows_empty_reply :
  detectSubject (replying sampleKey None) [] None = Return (subjectObject Algemeen)
  /\ detectSubject (replying sampleKey (Some [])) [] None = Return (subjectObject Algemeen)
  /\ detectSubject (replying sampleKey (Some (lit "Sorry, geen idee"))) [] None
     = Return (subjectObject Algemeen)
  /\ subjectObject Algemeen <> subjectObject {| subject := lit "General"; isMath := false |}.
Proof. repeat split; try (vm_compute; reflexivity). discriminate. Qed.

(** C4, amended.  A failed key validation propagates to the caller, and so
    does a remote failure whose message contains [API Key]; every other
    remote failure, an empty reply, and a reply whose parse error does not
    contain [API Key] are replaced by [{subject: "Algemeen", isMath: false}]. *)
Theorem detectSubject_error_policy
    (h : Host) (topic : jsstring) (imageBase64 : option jsstring) :
  (forall e, getAIClient (API_KEY h) = Throw e ->
             e = newError keyErrorMessage /\ detectSubject h topic imageBase64 = Throw e)
  /\ (forall ai, getAIClient (API_KEY h) = Return ai ->
        (forall e, generateContent h ai (subjectRequest topic imageBase64) = Throw e ->
                   mentionsApiKey e = true ->
                   detectSubject h topic imageBase64 = Throw e)
        /\ (forall e, generateContent h ai (subjectRequest topic imageBase64) = Throw e ->
                      mentionsApiKey e = false ->
                      detectSubject h topic imageBase64 = Return (subjectObject Algemeen))
        /\ (forall response,
              generateContent h ai (subjectRequest topic imageBase64) = Return response ->
              cleanJSON (textOrEmpty response) = [] ->
              detectSubject h topic imageBase64 = Return (subjectObject Algemeen))
        /\ (forall response,
              generateContent h ai (subjectRequest topic imageBase64) = Return response ->
              parse (cleanJSON (textOrEmpty response)) = None ->
              mentionsApiKey (syntaxError (engine h) (cleanJSON (textOrEmpty response))) = false ->
              detectSubject h topic imageBase64 = Return (subjectObject Algemeen))).
Proof.
  split.
  - intros e He. split; [now apply getAIClient_error in He|].
    now apply detectSubject_invalid_key.
  - intros ai Hkey. repeat split.
    + intros e He Hm.
      rewrite (detectSubject_remote_failure h topic imageBase64 ai Hkey e He), Hm. reflexivity.
    + intros e He Hm.
      rewrite (detectSubject_remote_failure h topic imageBase64 ai Hkey e He), Hm. reflexivity.
    + intros response Hr Hc. exact (detectSubject_empty h topic imageBase64 ai Hkey response Hr Hc).
    + intros response Hr Hp Hm.
      destruct (cleanJSON (textOrEmpty response)) as [|c t] eqn:Hc.
      * exact (detectSubject_empty h topic imageBase64 ai Hkey response Hr Hc).
      * pose proof (detectSubject_undecodable h topic imageBase64 ai Hkey response Hr) as H.
        rewrite Hc in H. rewrite H, Hm; [reflexivity | discriminate | assumption].
Qed.

Lemma detectSubject_error_policy_witness :
  detectSubject (replying (Some (lit "YOUR_API_KEY_HERE")) (Some wiskundeReply)) [] None
  = Throw (newError keyErrorMessage)
  /\ detectSubject (failing sampleKey (newError (lit "API Key not valid"))) [] None
     = Throw (newError (lit "API Key not valid"))
  /\ detectSubject (replying sampleKey (Some (lit "   "))) [] None
     = Return (subjectObject Algemeen).
Proof.
  split; [|split].
  - apply (proj1 (detectSubject_error_policy
                    (replying (Some (lit "YOUR_API_KEY_HERE")) (Some wiskundeReply)) [] None)).
    reflexivity.
  - apply (proj1 (proj2 (detectSubject_error_policy
                           (failing sampleKey (newError (lit "API Key not valid"))) [] None)
                    {| apiKey := sampleKey |} eq_refl)); reflexivity.
  - apply (proj1 (proj2 (proj2 (proj2 (detectSubject_error_policy
                           (replying sampleKey (Some (lit "   "))) [] None)
                    {| apiKey := sampleKey |} eq_refl)))
             {| text := Some (lit "   ") |}); reflexivity.
Defined.

(** ** The two versions side by side *)

Lemma getAIClient_client (key : option jsstring) (ai : Client) :
  getAIClient key = Return ai -> ai = {| apiKey := key |}.
Proof.
  unfold getAIClient. destruct key as [k|]; [destruct (isInvalidKey k)|]; congruence.
Qed.

(** C9, as the code has it: on a fenced reply both versions of
    [detectSubject] return without an error, the first with the object of the
    reply, the second with the fallback. *)
Lemma versions_differ_on_fenced_reply :
  detectSubject (replying sampleKey (Some (fenced wiskundeReply))) [] None
  = Return (subjectObject wiskunde)
  /\ GeminiServiceV2.detectSubject (replying sampleKey (Some (fenced wiskundeReply))) [] None
     = Return (subjectObject Algemeen)
  /\ subjectObject wiskunde <> subjectObject Algemeen.
Proof. repeat split; try (vm_compute; reflexivity). discriminate. Qed.

(** C9, amended.  With a valid key and a reply that is JSON as it stands
    (no fence around it), the two versions of [detectSubject] return the same
    value and the two versions of [generateBingoItems] return the same list
    whenever either returns one. *)
Theorem versions_agree_on_plain_json
    (h : Host) (topic : jsstring) (context : SubjectContext) (count : JsNumber)
    (imageBase64 : option jsstring) (mode : Mode) (ai : Client) :
  getAIClient (API_KEY h) = Return ai ->
  (forall response t v,
      generateContent h ai (subjectRequest topic imageBase64) = Return response ->
      text response = Some t -> parse t = Some v ->
      detectSubject h topic imageBase64 = Return v
      /\ GeminiServiceV2.detectSubject h topic imageBase64 = Return v)
  /\ (forall response t data,
      generateContent h ai (itemsRequest context topic count imageBase64 mode) = Return response ->
      text response = Some t -> parse t = Some data ->
      forall items,
        generateBingoItems h context topic count imageBase64 mode = Return items
        <-> GeminiServiceV2.generateBingoItems h context topic count imageBase64 mode
            = Return items).
Proof.
  intros Hkey. pose proof (getAIClient_client _ _ Hkey) as Hai. split.
  - intros response t v Hr Ht Hp. split.
    + apply (detectSubject_decoded h topic imageBase64 ai Hkey response Hr).
      unfold textOrEmpty. rewrite Ht. now apply parse_cleanJSON.
    + unfold GeminiServiceV2.detectSubject, GeminiServiceV2.ai. rewrite <- Hai, Hr.
      cbn [bind]. rewrite Ht. destruct t as [|c t]; [discriminate|].
      rewrite (JSON_parse_Some _ _ _ Hp). reflexivity.
  - intros response t data Hr Ht Hp items.
    rewrite (generateBingoItems_decoded h context topic count imageBase64 mode ai response
               Hkey Hr data)
      by (unfold textOrEmpty; rewrite Ht; now apply parse_cleanJSON).
    unfold GeminiServiceV2.generateBingoItems, GeminiServiceV2.ai. rewrite <- Hai, Hr.
    cbn [bind]. rewrite Ht. destruct t as [|c t]; [discriminate|].
    rewrite (JSON_parse_Some _ _ _ Hp). cbn [bind].
    destruct (itemsOf (engine h) data) as [l|e]; cbn [tryCatch]; [reflexivity|].
    destruct (mentionsApiKey e); split; discriminate.
Qed.

Lemma versions_agree_on_plain_json_witness :
  (detectSubject (replying sampleKey (Some wiskundeReply)) (lit "breuken") None
   = Return (subjectObject wiskunde)
   /\ GeminiServiceV2.detectSubject (replying sampleKey (Some wiskundeReply)) (lit "breuken") None
      = Return (subjectObject wiskunde)).
Proof.
  apply (proj1 (versions_agree_on_plain_json
                  (replying sampleKey (Some wiskundeReply)) (lit "breuken") wiskunde five None similar
                  {| apiKey := sampleKey |} eq_refl)
           {| text := Some wiskundeReply |} wiskundeReply); reflexivity.
Defined.

(** ** The parser's fuel

    The fuel [parse] gives the parser is enough: whatever the parser accepts
    with some fuel it accepts with any fuel from the number of tokens on. *)

Lemma parse_fuel_enough (f : nat) :
  enough parseValue f
  /\ (forall acc, enough (fun f => parseElements f acc) f)
  /\ (forall acc, enough (fun f => parseMembers f acc) f).
Proof.
  induction f as [|f (IHv & IHe & IHm)].
  - repeat split; try discriminate.
  - split; [|split].
    + intros ts v r H. cbn [parseValue] in H.
      destruct ts as [|t ts]; [discriminate|].
      destruct t.
      * (* an object *)
        destruct ts as [|t1 ts1]; [discriminate|].
        assert (Hobj :
          (t1 = TRBrace /\ v = JObject [] /\ r = ts1)
          \/ (exists k ts2 v1 r1 ms,
                t1 = TValue (JString k) /\ ts1 = TColon :: ts2
                /\ parseValue f ts2 = Some (v1, r1)
                /\ parseMembers f [(k, v1)] r1 = Some (ms, r)
                /\ v = JObject ms)).
        { destruct t1; try discriminate.
          - left. injection H as <- <-. auto.
          - right. destruct v0; try discriminate.
            destruct ts1 as [|t2 ts2]; [discriminate|]. destruct t2; try discriminate.
            destruct (parseValue f ts2) as [[v1 r1]|] eqn:Hv; [|discriminate].
            destruct (parseMembers f [(s, v1)] r1) as [[ms r2]|] eqn:Hm; [|discriminate].
            injection H as <- <-. exists s, ts2, v1, r1, ms. auto. }
        destruct Hobj as [(-> & -> & ->) | (k & ts2 & v1 & r1 & ms & -> & -> & Hv & Hm & ->)].
        -- split; [simpl; lia|]. intros [|f'] Hf; [simpl in Hf; lia | reflexivity].
        -- apply IHv in Hv as [Hlv Hv]. apply IHm in Hm as [Hlm Hm].
           split; [simpl; lia|]. intros [|f'] Hf; [simpl in Hf; lia|].
           simpl in Hf. cbn [parseValue].
           rewrite Hv by lia. rewrite Hm by lia. reflexivity.
      * discriminate.
      * (* an array *)
        assert (Harr :
          (exists ts1, ts = TRBracket :: ts1 /\ v = JArray [] /\ r = ts1)
          \/ (exists v1 r1 vs,
                parseValue f ts = Some (v1, r1)
                /\ parseElements f [v1] r1 = Some (vs, r)
                /\ v = JArray vs
                /\ forall f', parseValue (S f') (TLBracket :: ts)
                              = match parseValue f' ts with
                                | Some (v, r') =>
                                    match parseElements f' [v] r' with
                                    | Some (vs, r'') => Some (JArray vs, r'')
                                    | None => None
                                    end
                                | None => None
                                end)).
        { destruct ts as [|t1 ts1].
          - right. destruct f; discriminate.
          - destruct t1; try (left; injection H as <- <-; eauto; fail);
              right;
              (match type of H with
               | context [parseValue f ?x] =>
                   destruct (parseValue f x) as [[v1 r1]|] eqn:Hv; [|discriminate];
                   destruct (parseElements f [v1] r1) as [[vs r2]|] eqn:He; [|discriminate];
                   injection H as <- <-; exists v1, r1, vs; auto
               end). }
        destruct Harr as [(ts1 & -> & -> & ->) | (v1 & r1 & vs & Hv & He & -> & Heq)].
        -- split; [simpl; lia|]. intros [|f'] Hf; [simpl in Hf; lia | reflexivity].
        -- apply IHv in Hv as [Hlv Hv]. apply IHe in He as [Hle He].
           split; [simpl; lia|]. intros [|f'] Hf; [simpl in Hf; lia|].
           simpl in Hf. rewrite Heq, Hv by lia. rewrite He by lia. reflexivity.
      * discriminate.
      * discriminate.
      * discriminate.
      * injection H as <- <-. split; [simpl; lia|].
        intros [|f'] Hf; [simpl in Hf; lia | reflexivity].
    + intros acc ts vs r H. cbn [parseElements] in H.
      destruct ts as [|t ts]; [discriminate|].
      destruct t; try discriminate.
      * injection H as <- <-. split; [simpl; lia|].
        intros [|f'] Hf; [simpl in Hf; lia | reflexivity].
      * destruct (parseValue f ts) as [[v1 r1]|] eqn:Hv; [|discriminate].
        apply IHv in Hv as [Hlv Hv]. apply IHe in H as [Hle He].
        split; [simpl; lia|]. intros [|f'] Hf; [simpl in Hf; lia|].
        simpl in Hf. cbn [parseElements]. rewrite Hv by lia. apply He. lia.
    + intros acc ts ms r H. cbn [parseMembers] in H.
      destruct ts as [|t ts]; [discriminate|].
      destruct t; try discriminate.
      * injection H as <- <-. split; [simpl; lia|].
        intros [|f'] Hf; [simpl in Hf; lia | reflexivity].
      * destruct ts as [|t1 ts1]; [discriminate|]. destruct t1; try discriminate.
        destruct v; try discriminate.
        destruct ts1 as [|t2 ts2]; [discriminate|]. destruct t2; try discriminate.
        destruct (parseValue f ts2) as [[v1 r1]|] eqn:Hv; [|discriminate].
        apply IHv in Hv as [Hlv Hv]. apply IHm in H as [Hlm Hm].
        split; [simpl; lia|]. intros [|f'] Hf; [simpl in Hf; lia|].
        simpl in Hf. cbn [parseMembers]. rewrite Hv by lia. apply Hm. lia.
Qed.

(** Hence [parse] accepts exactly the texts the parser accepts with some fuel. *)
Lemma parse_any_fuel (s : jsstring) (ts : list token) (f : nat) (v : json) :
  lex s = Some ts -> parseValue f ts = Some (v, []) -> parse s = Some v.
Proof.
  intros Hl Hp. unfold parse. rewrite Hl.
  destruct (parse_fuel_enough f) as (Hv & _ & _).
  destruct (Hv ts v [] Hp) as [_ H]. rewrite H by lia. reflexivity.
Qed.

(** ** Cleaning a fenced reply *)

Lemma greedy_longest {A} (cls : N -> bool) (m r : jsstring) :
  all cls m ->
  match r with [] => True | c :: _ => cls c = false end ->
  forall (k : jsstring -> jsstring -> option A) (a : A),
    k m r = Some a -> greedy cls k (m ++ r) = Some a.
Proof.
  intros Hm Hr. induction Hm as [|x m Hx _ IH]; intros k a Hk.
  - simpl app. destruct r as [|c r]; [exact Hk|]. cbn [greedy]. now rewrite Hr.
  - simpl app. cbn [greedy]. rewrite Hx.
    now rewrite (IH (fun m r => k (x :: m) r) a Hk).
Qed.

Lemma matchHere_spaces_longest (r : list atom) (m rest : jsstring)
    (caps : list jsstring) (tail : jsstring) :
  all isSpace m ->
  match rest with [] => True | c :: _ => isSpace c = false end ->
  matchHere r rest = Some (caps, tail) ->
  matchHere (Many isSpace false false :: r) (m ++ rest) = Some (caps, tail).
Proof.
  intros Hm Hrest Hr. cbn [matchHere].
  apply greedy_longest; [assumption | assumption |].
  rewrite Hr. destruct m; reflexivity.
Qed.

Lemma search_skip (r : list atom) (s : jsstring) (caps : list jsstring) (tail : jsstring) :
  matchHere r s = Some (caps, tail) ->
  forall pre skipped,
    (forall p1 p2, pre = p1 ++ p2 -> p2 <> [] -> matchHere r (p2 ++ s) = None) ->
    search r skipped (pre ++ s)
    = Some {| before := rev skipped ++ pre; groups := caps; after := tail |}.
Proof.
  intros Hs. induction pre as [|c pre IH]; intros skipped Hpre.
  - simpl app. destruct s; cbn [search]; rewrite Hs, app_nil_r; reflexivity.
  - simpl app. cbn [search].
    assert (H0 : matchHere r (c :: pre ++ s) = None)
      by (apply (Hpre [] (c :: pre) eq_refl); discriminate).
    rewrite H0, IH.
    + cbn [rev]. now rewrite <- app_assoc.
    + intros p1 p2 -> Hne. now apply (Hpre (c :: p1) p2).
Qed.

Lemma fenceClose_removed (txt ws2 : jsstring) (z : N) :
  isSpace z = false -> all isSpace ws2 ->
  remove fenceClose ((txt ++ [z]) ++ ws2 ++ lit "```") = txt ++ [z].
Proof.
  intros Hz Hws.
  assert (Hend : matchHere (body fenceClose) (ws2 ++ lit "```") = Some ([], [])).
  { unfold fenceClose; cbn [body].
    apply matchHere_spaces_longest; [assumption | reflexivity | reflexivity]. }
  unfold remove, exec. change (fromStart fenceClose) with false. cbv iota.
  rewrite (search_skip _ _ _ _ Hend).
  - cbn [before after rev app]. now rewrite app_nil_r.
  - intros p1 p2 E Hne.
    destruct (matchHere (body fenceClose) (p2 ++ ws2 ++ lit "```")) as [[caps tail]|] eqn:Hm;
      [exfalso | reflexivity].
    apply matchHere_sound in Hm. unfold fenceClose in Hm; cbn [body] in Hm.
    inversion Hm as [| | |? ? ? ? m s1 ? ? Hall _ Ma Heq]; clear Hm.
    inversion Ma as [|? ? s2 ? ? Mb Heq1| |]; clear Ma.
    inversion Mb. subst.
    destruct (exists_last Hne) as (p2' & y & ->).
    rewrite app_assoc in E. apply app_inj_tail in E as [_ <-].
    match goal with
    | H : m ++ _ = _ |- _ =>
        rewrite app_nil_r, (app_assoc (p2' ++ [z])) in H; apply app_inv_tail in H; subst m
    end.
    apply Forall_app in Hall as [Hall _]. apply Forall_app in Hall as [_ Hall].
    inversion Hall; congruence.
Qed.

Lemma trim_clean (c z : N) (s : jsstring) (txt : jsstring) :
  isSpace c = false -> isSpace z = false -> c :: s = txt ++ [z] -> trim (c :: s) = c :: s.
Proof.
  intros Hc Hz E. unfold trim. cbn [trimStart]. rewrite Hc, E, trimEnd_snoc, Hz. reflexivity.
Qed.

(** A text that neither starts with a backtick or white space nor ends with
    white space comes out of its fence unchanged. *)
Lemma cleanJSON_fenced (ws1 ws2 : jsstring) (c z : N) (s txt : jsstring) :
  all isSpace ws1 -> all isSpace ws2 ->
  isSpace c = false -> c <> 96 -> isSpace z = false -> c :: s = txt ++ [z] ->
  cleanJSON (fencedWith ws1 ws2 (c :: s)) = c :: s.
Proof.
  intros H1 H2 Hc Hb Hz E. unfold fencedWith, cleanJSON.
  change (lit "```json" ++ ws1 ++ (c :: s) ++ ws2 ++ lit "```")
    with (96 :: (lit "``json" ++ ws1 ++ (c :: s) ++ ws2 ++ lit "```")).
  assert (R1 : remove fenceJson (96 :: (lit "``json" ++ ws1 ++ (c :: s) ++ ws2 ++ lit "```"))
               = (c :: s) ++ ws2 ++ lit "```").
  { unfold remove, exec. change (fromStart fenceJson) with true. cbv iota.
    unfold fenceJson; cbn [body]. change (matchHere (Chars ?l :: ?r) ?x)
      with (match dropPrefix l x with Some s' => matchHere r s' | None => None end).
    change (96 :: (lit "``json" ++ ws1 ++ (c :: s) ++ ws2 ++ lit "```"))
      with (lit "```json" ++ ws1 ++ (c :: s) ++ ws2 ++ lit "```").
    rewrite dropPrefix_app.
    rewrite (matchHere_spaces_longest [] ws1 ((c :: s) ++ ws2 ++ lit "```") [] _ H1 Hc eq_refl).
    reflexivity. }
  rewrite R1.
  assert (R2 : remove fenceOpen ((c :: s) ++ ws2 ++ lit "```") = (c :: s) ++ ws2 ++ lit "```").
  { unfold remove, exec, fenceOpen; cbn [fromStart body matchHere].
    change (lit "```") with (96 :: lit "``"). simpl app. cbn [dropPrefix].
    destruct (N.eqb_spec 96 c); [congruence | reflexivity]. }
  rewrite R2, E, (fenceClose_removed txt ws2 z Hz H2), <- E.
  eapply trim_clean; eassumption.
Qed.

(** C7. Given the reply [{"subject":"Wiskunde","isMath":true}], bare or
    inside a [```json] fence (with any white space between the fence and the
    text), [detectSubject] returns the object the reply denotes. *)
Theorem detectSubject_returns_parsed_reply
    (h : Host) (topic : jsstring) (imageBase64 : option jsstring) (ai : Client)
    (reply : jsstring) :
  getAIClient (API_KEY h) = Return ai ->
  generateContent h ai (subjectRequest topic imageBase64) = Return {| text := Some reply |} ->
  reply = wiskundeReply
  \/ (exists ws1 ws2,
        all isSpace ws1 /\ all isSpace ws2 /\ reply = fencedWith ws1 ws2 wiskundeReply) ->
  detectSubject h topic imageBase64
  = Return (JObject [(lit "subject", JString (lit "Wiskunde")); (lit "isMath", JBool true)]).
Proof.
  intros Hkey Hreply Hshape.
  apply (detectSubject_decoded h topic imageBase64 ai Hkey _ Hreply).
  cbn [textOrEmpty text].
  destruct Hshape as [-> | (ws1 & ws2 & H1 & H2 & ->)]; [vm_compute; reflexivity|].
  change wiskundeReply with (123 :: quoted "'subject':'Wiskunde','isMath':true}").
  rewrite (cleanJSON_fenced ws1 ws2 123 125 _ (quoted "{'subject':'Wiskunde','isMath':true"));
    try reflexivity; try assumption; try discriminate.
Qed.

Lemma detectSubject_returns_parsed_reply_witness :
  detectSubject (replying sampleKey (Some (fenced wiskundeReply))) (lit "breuken") None
  = Return (JObject [(lit "subject", JString (lit "Wiskunde")); (lit "isMath", JBool true)]).
Proof.
  apply (detectSubject_returns_parsed_reply
           (replying sampleKey (Some (fenced wiskundeReply))) (lit "breuken") None
           {| apiKey := sampleKey |} (fenced wiskundeReply) eq_refl eq_refl).
  right. exists newline, newline. repeat split; repeat constructor.
Defined.

(** * Further properties of the code *)

(** ** What [cleanJSON] keeps and what it cuts *)

Lemma trimStart_suffix (s : jsstring) :
  exists pre, s = pre ++ trimStart s /\ all isSpace pre.
Proof.
  induction s as [|c s (pre & E & Hpre)].
  - exists []. split; [reflexivity | constructor].
  - cbn [trimStart]. destruct (isSpace c) eqn:Hc.
    + exists (c :: pre). split; [simpl; congruence | constructor; assumption].
    + exists []. split; [reflexivity | constructor].
Qed.

Lemma trimStart_head (s : jsstring) (c : N) (r : jsstring) :
  trimStart s = c :: r -> isSpace c = false.
Proof.
  induction s as [|d s IH]; cbn [trimStart]; [discriminate|].
  destruct (isSpace d) eqn:Hd; [assumption|]. intros H. injection H as <- _. assumption.
Qed.

Lemma trimEnd_prefix (s : jsstring) :
  exists post, s = trimEnd s ++ post /\ all isSpace post.
Proof.
  unfold trimEnd. destruct (trimStart_suffix (rev s)) as (pre & E & Hpre).
  exists (rev pre). split.
  - rewrite <- rev_app_distr, <- E. now rewrite rev_involutive.
  - apply Forall_rev. assumption.
Qed.

Lemma trimEnd_last (s r : jsstring) (z : N) :
  trimEnd s = r ++ [z] -> isSpace z = false.
Proof.
  unfold trimEnd. intros H. apply (f_equal (@rev N)) in H.
  rewrite rev_involutive, rev_app_distr in H. simpl in H.
  eapply trimStart_head; eassumption.
Qed.

Lemma trimEnd_head (c : N) (r : jsstring) :
  isSpace c = false -> exists r', trimEnd (c :: r) = c :: r'.
Proof.
  intros Hc. induction r as [|z r IH] using rev_ind.
  - exists []. change [c] with ([] ++ [c]). rewrite trimEnd_snoc, Hc. reflexivity.
  - change (c :: r ++ [z]) with ((c :: r) ++ [z]). rewrite trimEnd_snoc.
    destruct (isSpace z); [assumption | eexists; reflexivity].
Qed.

Lemma trim_trimmed (s : jsstring) : trimmed (trim s).
Proof.
  unfold trim. split.
  - intros c r H. destruct (trimStart s) as [|d t] eqn:E; [discriminate|].
    pose proof (trimStart_head _ _ _ E) as Hd.
    destruct (trimEnd_head d t Hd) as (r' & E'). rewrite E' in H. now injection H as <- _.
  - intros r z H. eapply trimEnd_last; eassumption.
Qed.

Lemma trim_infix (s : jsstring) : infix (trim s) s.
Proof.
  unfold trim. destruct (trimStart_suffix s) as (pre & E & _).
  destruct (trimEnd_prefix (trimStart s)) as (post & E' & _).
  exists pre, post. now rewrite <- E', <- E.
Qed.

Lemma infix_refl (s : jsstring) : infix s s.
Proof. exists [], []. now rewrite app_nil_r. Qed.

Lemma infix_trans (a b c : jsstring) : infix a b -> infix b c -> infix a c.
Proof.
  intros (p1 & q1 & ->) (p2 & q2 & ->). exists (p2 ++ p1), (q1 ++ q2).
  now rewrite <- !app_assoc.
Qed.

Lemma matches_suffix (r : list atom) (s tail : jsstring) (caps : list jsstring) :
  matches r s caps tail -> exists pre, s = pre ++ tail.
Proof.
  induction 1 as [s|l r s caps tail _ (pre & ->)|r caps tail _ IH
                  |cls plus cap r m s caps tail _ _ _ (pre & ->)].
  - now exists [].
  - exists (l ++ pre). now rewrite app_assoc.
  - assumption.
  - exists (m ++ pre). now rewrite app_assoc.
Qed.

Lemma remove_fromStart_infix (re : regex) (s : jsstring) :
  fromStart re = true -> infix (remove re s) s.
Proof.
  intros H. unfold remove, exec. rewrite H.
  destruct (matchHere (body re) s) as [[caps tail]|] eqn:Hm; [|apply infix_refl].
  apply matchHere_sound, matches_suffix in Hm as (pre & ->).
  exists pre, []. now rewrite app_nil_r.
Qed.

Lemma search_sound (r : list atom) (s : jsstring) :
  forall skipped m,
    search r skipped s = Some m ->
    exists mid, rev skipped ++ s = before m ++ mid
                /\ matchHere r mid = Some (groups m, after m).
Proof.
  induction s as [|c s IH]; intros skipped m H; cbn [search] in H.
  - destruct (matchHere r []) as [[caps tail]|] eqn:Hm; [|discriminate].
    injection H as <-. exists []. split; [reflexivity | assumption].
  - destruct (matchHere r (c :: s)) as [[caps tail]|] eqn:Hm.
    + injection H as <-. exists (c :: s). split; [reflexivity | assumption].
    + apply IH in H as (mid & E & Hmid). exists mid. split; [|assumption].
      cbn [rev] in E. now rewrite <- app_assoc in E.
Qed.

Lemma remove_fenceClose_prefix (s : jsstring) :
  exists post, s = remove fenceClose s ++ post.
Proof.
  unfold remove, exec. change (fromStart fenceClose) with false. cbv iota.
  destruct (search (body fenceClose) [] s) as [m|] eqn:Hs.
  - apply search_sound in Hs as (mid & E & Hm). cbn [rev app] in E.
    apply matchHere_sound in Hm. unfold fenceClose in Hm; cbn [body] in Hm.
    inversion Hm as [| | |? ? ? ? w s1 ? ? _ _ Ma]; subst; clear Hm.
    inversion Ma as [|? ? s2 ? ? Mb| |]; subst; clear Ma.
    inversion Mb as [| |? ? ? Mc|]; subst; clear Mb.
    inversion Mc; subst.
    rewrite (app_nil_r (before m)). eexists. reflexivity.
  - exists []. now rewrite app_nil_r.
Qed.

Lemma cleanJSON_is_infix (text : jsstring) : infix (cleanJSON text) text.
Proof.
  destruct text as [|c t]; [apply infix_refl|]. unfold cleanJSON.
  eapply infix_trans; [apply trim_infix|].
  eapply infix_trans.
  { destruct (remove_fenceClose_prefix (remove fenceOpen (remove fenceJson (c :: t))))
      as (post & E).
    exists [], post. exact E. }
  eapply infix_trans; apply remove_fromStart_infix; reflexivity.
Qed.

(** X1. [cleanJSON] only cuts at the two ends: its result is one contiguous
    piece of the text it was given, and that piece has no white space at
    either end. *)
Theorem cleanJSON_cuts_the_ends_only (text : jsstring) :
  infix (cleanJSON text) text /\ trimmed (cleanJSON text).
Proof.
  split; [apply cleanJSON_is_infix|].
  destruct text as [|c t].
  - split; [discriminate | intros [|? ?] ? ?; discriminate].
  - unfold cleanJSON. apply trim_trimmed.
Qed.

Lemma dropPrefix_longer (a b s : jsstring) :
  dropPrefix a s = None -> dropPrefix (a ++ b) s = None.
Proof.
  revert s; induction a as [|x a IH]; intros s; simpl; [discriminate|].
  destruct s as [|y s]; [reflexivity|]. destruct (x =? y); [apply IH | reflexivity].
Qed.

Lemma dropPrefix_None (p s : jsstring) :
  ~ (exists r, s = p ++ r) -> dropPrefix p s = None.
Proof.
  intros H. destruct (dropPrefix p s) as [r|] eqn:E; [|reflexivity].
  exfalso. apply H. exists r. now apply dropPrefix_Some.
Qed.

Lemma remove_fenceJson_absent (s : jsstring) :
  dropPrefix (lit "```") s = None -> remove fenceJson s = s.
Proof.
  intros H. unfold remove, exec, fenceJson; cbn [fromStart body matchHere].
  change (lit "```json") with (lit "```" ++ lit "json").
  now rewrite dropPrefix_longer.
Qed.

Lemma remove_fenceOpen_absent (s : jsstring) :
  dropPrefix (lit "```") s = None -> remove fenceOpen s = s.
Proof.
  intros H. unfold remove, exec, fenceOpen; cbn [fromStart body matchHere]. now rewrite H.
Qed.

Lemma remove_fenceClose_absent (s : jsstring) :
  ~ (exists p, s = p ++ lit "```") -> remove fenceClose s = s.
Proof.
  intros H. unfold remove, exec. change (fromStart fenceClose) with false. cbv iota.
  rewrite search_None; [reflexivity|].
  intros pre s' ->.
  destruct (matchHere (body fenceClose) s') as [[caps tail]|] eqn:Hm; [exfalso | reflexivity].
  apply matchHere_sound in Hm. unfold fenceClose in Hm; cbn [body] in Hm.
  inversion Hm as [| | |? ? ? ? w s1 ? ? _ _ Ma]; subst; clear Hm.
  inversion Ma as [|? ? s2 ? ? Mb| |]; subst; clear Ma.
  inversion Mb; subst.
  apply H. exists (pre ++ w). now rewrite app_nil_r, app_assoc.
Qed.

Lemma cleanJSON_trims_unfenced_text_aux (text : jsstring) :
  ~ (exists r, text = lit "```" ++ r) ->
  ~ (exists p, text = p ++ lit "```") ->
  cleanJSON text = trim text.
Proof.
  intros Hstart Hend. destruct text as [|c t]; [reflexivity|]. unfold cleanJSON.
  pose proof (dropPrefix_None _ _ Hstart) as Hd.
  now rewrite (remove_fenceJson_absent _ Hd), (remove_fenceOpen_absent _ Hd),
    (remove_fenceClose_absent _ Hend).
Qed.

(** X2. A text that neither starts nor ends with three backticks is only
    trimmed. *)
Theorem cleanJSON_trims_unfenced_text (text : jsstring) :
  ~ (exists r, text = lit "```" ++ r) ->
  ~ (exists p, text = p ++ lit "```") ->
  cleanJSON text = trim text.
Proof.
  intros Hstart Hend. destruct text as [|c t]; [reflexivity|]. unfold cleanJSON.
  pose proof (dropPrefix_None _ _ Hstart) as Hd.
  rewrite (remove_fenceJson_absent _ Hd).
  rewrite (remove_fenceOpen_absent _ Hd).
  rewrite (remove_fenceClose_absent _ Hend).
  reflexivity.
Qed.

Lemma cleanJSON_trims_unfenced_text_witness :
  cleanJSON (lit "  `x` is code ") = lit "`x` is code".
Proof.
  rewrite (cleanJSON_trims_unfenced_text (lit "  `x` is code ")).
  - reflexivity.
  - intros (r & H). discriminate.
  - intros (p & H). apply (f_equal (@rev N)) in H.
    rewrite rev_app_distr in H. discriminate.
Defined.

Lemma dropPrefix_same_start (p a b : jsstring) :
  dropPrefix (p ++ a) (p ++ b) = dropPrefix a b.
Proof. induction p as [|x p IH]; simpl; [reflexivity|]. now rewrite N.eqb_refl. Qed.

Lemma cleanJSON_plainFenced (ws1 ws2 : jsstring) (c z : N) (s txt : jsstring) :
  all isSpace ws1 -> all isSpace ws2 ->
  isSpace c = false -> c <> 96 -> isSpace z = false -> c :: s = txt ++ [z] ->
  ws1 <> [] \/ c <> 106 ->
  cleanJSON (plainFenced ws1 ws2 (c :: s)) = c :: s.
Proof.
  intros H1 H2 Hc Hb Hz E Hj. unfold plainFenced, cleanJSON.
  change (lit "```" ++ ws1 ++ (c :: s) ++ ws2 ++ lit "```")
    with (96 :: (lit "``" ++ ws1 ++ (c :: s) ++ ws2 ++ lit "```")).
  change (96 :: (lit "``" ++ ws1 ++ (c :: s) ++ ws2 ++ lit "```"))
    with (lit "```" ++ ws1 ++ (c :: s) ++ ws2 ++ lit "```").
  assert (R1 : remove fenceJson (lit "```" ++ ws1 ++ (c :: s) ++ ws2 ++ lit "```")
               = lit "```" ++ ws1 ++ (c :: s) ++ ws2 ++ lit "```").
  { unfold remove, exec, fenceJson; cbn [fromStart body matchHere].
    change (lit "```json") with (lit "```" ++ 106 :: lit "son").
    rewrite dropPrefix_same_start.
    destruct ws1 as [|w ws1].
    - destruct Hj as [Hj|Hj]; [congruence|]. cbn [app dropPrefix].
      destruct (N.eqb_spec 106 c); [congruence | reflexivity].
    - inversion H1; subst. cbn [app dropPrefix].
      destruct (N.eqb_spec 106 w) as [<-|]; [discriminate | reflexivity]. }
  rewrite R1.
  assert (R2 : remove fenceOpen (lit "```" ++ ws1 ++ (c :: s) ++ ws2 ++ lit "```")
               = (c :: s) ++ ws2 ++ lit "```").
  { unfold remove, exec. change (fromStart fenceOpen) with true. cbv iota.
    unfold fenceOpen; cbn [body]. change (matchHere (Chars ?l :: ?r) ?x)
      with (match dropPrefix l x with Some s' => matchHere r s' | None => None end).
    rewrite dropPrefix_app.
    rewrite (matchHere_spaces_longest [] ws1 ((c :: s) ++ ws2 ++ lit "```") [] _ H1 Hc eq_refl).
    reflexivity. }
  rewrite R2, E, (fenceClose_removed txt ws2 z Hz H2), <- E.
  eapply trim_clean; eassumption.
Qed.

(** X3. A text that starts with neither white space nor a backtick and does
    not end with white space comes back unchanged from inside a [```json]
    fence, and from inside a plain [```] fence unless it follows the fence
    directly and starts with [j]; the white space between fence and text
    may be anything. *)
Theorem cleanJSON_unwraps_fences (ws1 ws2 : jsstring) (c z : N) (s txt : jsstring) :
  all isSpace ws1 -> all isSpace ws2 ->
  isSpace c = false -> c <> 96 -> isSpace z = false -> c :: s = txt ++ [z] ->
  cleanJSON (fencedWith ws1 ws2 (c :: s)) = c :: s
  /\ (ws1 <> [] \/ c <> 106 -> cleanJSON (plainFenced ws1 ws2 (c :: s)) = c :: s).
Proof.
  intros H1 H2 Hc Hb Hz E. split.
  - eapply cleanJSON_fenced; eassumption.
  - intros Hj. eapply cleanJSON_plainFenced; eassumption.
Qed.

Lemma cleanJSON_unwraps_fences_witness :
  cleanJSON (fencedWith (lit " ") [13; 10] (quoted "['a']")) = quoted "['a']"
  /\ cleanJSON (plainFenced newline newline (quoted "['a']")) = quoted "['a']".
Proof.
  assert (Hsp : all isSpace (lit " ")) by (repeat constructor).
  assert (Hcr : all isSpace [13; 10]) by (repeat constructor).
  assert (Hnl : all isSpace newline) by (repeat constructor).
  assert (Hb : 91 <> 96) by discriminate.
  split.
  - exact (proj1 (cleanJSON_unwraps_fences (lit " ") [13; 10] 91 93
                    (quoted "'a']") (quoted "['a'") Hsp Hcr eq_refl Hb eq_refl eq_refl)).
  - apply (proj2 (cleanJSON_unwraps_fences newline newline 91 93
                    (quoted "'a']") (quoted "['a'") Hnl Hnl eq_refl Hb eq_refl eq_refl)).
    left. discriminate.
Defined.

Lemma trimStart_spaces (t : jsstring) : all isSpace t -> trimStart t = [].
Proof. induction 1 as [|c t Hc _ IH]; [reflexivity|]. cbn [trimStart]. now rewrite Hc. Qed.

Lemma cleanJSON_spaces (t : jsstring) : all isSpace t -> cleanJSON t = [].
Proof.
  intros H. rewrite cleanJSON_trims_unfenced_text_aux.
  - unfold trim. now rewrite (trimStart_spaces t H).
  - intros (r & ->). inversion H; discriminate.
  - intros (p & ->). apply Forall_app in H as [_ H]. inversion H; discriminate.
Qed.

Lemma cleanJSON_empty_fence (ws : jsstring) :
  all isSpace ws ->
  cleanJSON (fencedWith ws [] []) = [] /\ cleanJSON (plainFenced ws [] []) = [].
Proof.
  intros H.
  assert (Hopen : forall l, matchHere [Chars l; Many isSpace false false]
                              (l ++ ws ++ lit "```") = Some ([], lit "```")).
  { intros l. change (matchHere (Chars ?l :: ?r) ?x)
      with (match dropPrefix l x with Some s' => matchHere r s' | None => None end).
    rewrite dropPrefix_app.
    now rewrite (matchHere_spaces_longest [] ws (lit "```") [] _ H eq_refl eq_refl). }
  split.
  - unfold fencedWith, cleanJSON. cbn [app].
    replace (remove fenceJson (lit "```json" ++ ws ++ lit "```")) with (lit "```").
    + reflexivity.
    + unfold remove, exec, fenceJson; cbn [fromStart body]. now rewrite Hopen.
  - unfold plainFenced, cleanJSON. cbn [app].
    replace (remove fenceJson (lit "```" ++ ws ++ lit "```"))
      with (lit "```" ++ ws ++ lit "```").
    + replace (remove fenceOpen (lit "```" ++ ws ++ lit "```")) with (lit "```").
      * reflexivity.
      * unfold remove, exec, fenceOpen; cbn [fromStart body]. now rewrite Hopen.
    + unfold remove, exec, fenceJson; cbn [fromStart body matchHere].
      change (lit "```json") with (lit "```" ++ 106 :: lit "son").
      rewrite dropPrefix_same_start.
      destruct ws as [|w ws]; [reflexivity|].
      inversion H; subst. cbn [app dropPrefix].
      destruct (N.eqb_spec 106 w) as [<-|]; [discriminate | reflexivity].
Qed.

Lemma blankReply_clean (response : Response) :
  blankReply (text response) -> cleanJSON (textOrEmpty response) = [].
Proof.
  unfold textOrEmpty. intros [-> | (t & -> & [H | (ws & H & [-> | ->])])].
  - reflexivity.
  - exact (cleanJSON_spaces t H).
  - exact (proj1 (cleanJSON_empty_fence ws H)).
  - exact (proj2 (cleanJSON_empty_fence ws H)).
Qed.

(** X4. A reply without content (no text, white space only, or an empty
    fence) is treated as no reply: item generation fails with
    [Kon geen items genereren: Geen tekst ontvangen van AI] and subject
    detection answers the fallback. *)
Theorem blank_reply_counts_as_no_text (h : Host) (ai : Client) (response : Response) :
  getAIClient (API_KEY h) = Return ai ->
  blankReply (text response) ->
  (forall context topicInput count imageBase64 mode,
      generateContent h ai (itemsRequest context topicInput count imageBase64 mode)
      = Return response ->
      generateBingoItems h context topicInput count imageBase64 mode
      = Throw (newError (lit "Kon geen items genereren: Geen tekst ontvangen van AI")))
  /\ (forall topic imageBase64,
      generateContent h ai (subjectRequest topic imageBase64) = Return response ->
      detectSubject h topic imageBase64 = Return (subjectObject Algemeen)).
Proof.
  intros Hkey Hblank. pose proof (blankReply_clean response Hblank) as Hc. split.
  - intros context topicInput count imageBase64 mode Hr.
    exact (generateBingoItems_empty h context topicInput count imageBase64 mode ai response
             Hkey Hr Hc).
  - intros topic imageBase64 Hr.
    exact (detectSubject_empty h topic imageBase64 ai Hkey response Hr Hc).
Qed.

Lemma blank_reply_counts_as_no_text_witness :
  generateBingoItems (replying sampleKey (Some (fencedWith newline [] [])))
    wiskunde (lit "tafels") five None similar
  = Throw (newError (lit "Kon geen items genereren: Geen tekst ontvangen van AI")).
Proof.
  assert (Hblank : blankReply (text {| text := Some (fencedWith newline [] []) |})).
  { right. exists (fencedWith newline [] []). split; [reflexivity|].
    right. exists newline. split; [repeat constructor | left; reflexivity]. }
  exact (proj1 (blank_reply_counts_as_no_text
                  (replying sampleKey (Some (fencedWith newline [] [])))
                  {| apiKey := sampleKey |} {| text := Some (fencedWith newline [] []) |}
                  eq_refl Hblank)
           wiskunde (lit "tafels") five None similar eq_refl).
Defined.

(** ** Data URLs in general *)

(** The greedy repetition settles on the longest run its continuation accepts. *)
Lemma greedy_maximal {A} (cls : N -> bool) (s : jsstring) :
  forall (k : jsstring -> jsstring -> option A) (a : A),
    greedy cls k s = Some a ->
    exists m r, s = m ++ r /\ all cls m /\ k m r = Some a
      /\ forall m' r', s = m' ++ r' -> all cls m' -> (length m < length m')%nat ->
                       k m' r' = None.
Proof.
  induction s as [|c s IH]; intros k a H; cbn [greedy] in H.
  - exists [], []. repeat split; [constructor | assumption |].
    intros m' r' E _ Hlen. symmetry in E. apply app_eq_nil in E as [-> _].
    simpl in Hlen. lia.
  - destruct (cls c) eqn:Hc.
    + destruct (greedy cls (fun m r => k (c :: m) r) s) eqn:Hg.
      * injection H as ->. apply IH in Hg as (m & r & -> & Hm & Hk & Hmax).
        exists (c :: m), r. repeat split; [constructor; assumption | assumption |].
        intros m' r' E Hm' Hlen. destruct m' as [|x m']; [simpl in Hlen; lia|].
        simpl in E. injection E as <- E. inversion Hm'; subst.
        apply (Hmax m' r' E); [assumption | simpl in Hlen; lia].
      * exists [], (c :: s). repeat split; [constructor | assumption |].
        intros m' r' E Hm' Hlen. destruct m' as [|x m']; [simpl in Hlen; lia|].
        simpl in E. injection E as <- ->. inversion Hm'; subst.
        exact (greedy_complete cls _ _ Hg m' r' eq_refl H3).
    + exists [], (c :: s). repeat split; [constructor | assumption |].
      intros m' r' E Hm' Hlen. destruct m' as [|x m']; [simpl in Hlen; lia|].
      simpl in E. injection E as <- _. inversion Hm'; congruence.
Qed.

Lemma dataUrl_tail_matches (payload : jsstring) :
  payload <> [] -> all notLineTerminator payload ->
  matchHere [Chars (lit ";base64,"); Many notLineTerminator true true; AtEnd]
    (lit ";base64," ++ payload) <> None.
Proof.
  intros Hp Hall. eapply matchHere_complete.
  constructor.
  pose proof (matches_many notLineTerminator true true [AtEnd] payload [] [] []
                Hall (fun _ => Hp) (matches_end _ _ _ (matches_nil []))) as M.
  rewrite app_nil_r in M. exact M.
Qed.

Lemma dataUrl_tail_parts (r : jsstring) (caps : list jsstring) (tail : jsstring) :
  matchHere [Chars (lit ";base64,"); Many notLineTerminator true true; AtEnd] r
  = Some (caps, tail) ->
  exists d, r = lit ";base64," ++ d /\ caps = [d] /\ tail = [] /\ d <> []
            /\ all notLineTerminator d.
Proof.
  intros H. apply matchHere_sound in H.
  inversion H as [|? ? s1 ? ? Ma| |]; subst; clear H.
  inversion Ma as [| | |? ? ? ? d s2 ? ? Hd Hne Mb]; subst; clear Ma.
  inversion Mb as [| |? ? ? Mc|]; subst; clear Mb.
  inversion Mc; subst.
  exists d. rewrite app_nil_r. repeat split; auto.
Qed.

Lemma dataUrl_match (s : jsstring) (caps : list jsstring) (tail : jsstring) :
  matchHere (body dataUrlPattern) s = Some (caps, tail) ->
  exists m d,
    s = lit "data:" ++ m ++ lit ";base64," ++ d
    /\ caps = [m; d] /\ tail = [] /\ m <> [] /\ d <> []
    /\ all notLineTerminator m /\ all notLineTerminator d
    /\ forall m' d',
         s = lit "data:" ++ m' ++ lit ";base64," ++ d' ->
         m' <> [] -> d' <> [] -> all notLineTerminator m' -> all notLineTerminator d' ->
         (length m' <= length m)%nat.
Proof.
  unfold dataUrlPattern; cbn [body].
  change (matchHere (Chars ?l :: ?r) ?x)
    with (match dropPrefix l x with Some s' => matchHere r s' | None => None end).
  destruct (dropPrefix (lit "data:") s) as [s1|] eqn:Hd; [|discriminate].
  apply dropPrefix_Some in Hd as ->.
  cbn [matchHere]. intros H.
  apply greedy_maximal in H as (m & r & -> & Hm & Hk & Hmax).
  destruct m as [|c m]; [discriminate|].
  match type of Hk with
  | context [match ?x with _ => _ end] =>
      destruct x as [[caps0 tail0]|] eqn:Hr; [|discriminate]
  end.
  injection Hk as <- <-.
  change (matchHere [Chars (lit ";base64,"); Many notLineTerminator true true; AtEnd] r
          = Some (caps0, tail0)) in Hr.
  apply dataUrl_tail_parts in Hr as (d & -> & -> & -> & Hd & Hall).
  exists (c :: m), d. repeat split; try assumption; try discriminate.
  intros m' d' E Hm' Hd' Hall' Halld'.
  apply app_inv_head in E.
  destruct (Nat.le_gt_cases (length m') (length (c :: m))) as [Hle|Hgt]; [assumption|].
  exfalso. specialize (Hmax m' (lit ";base64," ++ d') E Hall' Hgt).
  destruct m' as [|c' m']; [congruence|].
  pose proof (dataUrl_tail_matches d' Hd' Halld') as Hne.
  change (match matchHere [Chars (lit ";base64,"); Many notLineTerminator true true; AtEnd]
                  (lit ";base64," ++ d')
          with
          | Some (caps, tail) => Some ((c' :: m') :: caps, tail)
          | None => None
          end = None) in Hmax.
  destruct (matchHere _ (lit ";base64," ++ d')) as [[? ?]|]; [discriminate | congruence].
Qed.

Lemma parseDataUrl_parts (s : jsstring) :
  dataUrlShape s ->
  exists m d,
    parseDataUrl s = {| mimeType := m; data := d |}
    /\ s = lit "data:" ++ m ++ lit ";base64," ++ d
    /\ m <> [] /\ d <> [] /\ all notLineTerminator m /\ all notLineTerminator d
    /\ forall m' d',
         s = lit "data:" ++ m' ++ lit ";base64," ++ d' ->
         m' <> [] -> d' <> [] -> all notLineTerminator m' -> all notLineTerminator d' ->
         (length m' <= length m)%nat.
Proof.
  intros Hshape. pose proof (dataUrl_shape_captures s Hshape) as Hc.
  unfold parseDataUrl. unfold captures, exec in *.
  change (fromStart dataUrlPattern) with true in *. cbv iota in *.
  destruct (matchHere (body dataUrlPattern) s) as [[caps tail]|] eqn:Hm;
    [|simpl in Hc; congruence].
  apply dataUrl_match in Hm as (m & d & E & -> & -> & H).
  exists m, d. split; [reflexivity | split; [exact E | exact H]].
Qed.

(** X5. For a payload without a semicolon (base64 text has none),
    [parseDataUrl] splits [data:<mime>;base64,<payload>] into exactly that
    mime type and that payload. *)
Theorem parseDataUrl_splits_base64 (mime payload : jsstring) :
  mime <> [] -> payload <> [] ->
  all notLineTerminator mime -> all notLineTerminator payload ->
  ~ In 59 payload ->
  parseDataUrl (lit "data:" ++ mime ++ lit ";base64," ++ payload)
  = {| mimeType := mime; data := payload |}.
Proof.
  intros Hm Hp Hallm Hallp Hsemi.
  destruct (parseDataUrl_parts (lit "data:" ++ mime ++ lit ";base64," ++ payload))
    as (m & d & -> & E & _ & _ & _ & _ & Hmax).
  { exists mime, payload. auto. }
  specialize (Hmax mime payload eq_refl Hm Hp Hallm Hallp).
  apply app_inv_head in E. apply app_eq_app in E as [l [[-> E] | [-> E]]].
  - (* the code's mime type is shorter: impossible by maximality *)
    rewrite length_app in Hmax. destruct l as [|x l]; [|simpl in Hmax; lia].
    rewrite app_nil_r. simpl in E. injection E as ->. reflexivity.
  - destruct l as [|x l].
    + rewrite app_nil_r. simpl in E. injection E as ->. reflexivity.
    + exfalso. change (lit ";base64,") with (59 :: lit "base64,") in E.
      simpl in E. injection E as <- E.
      assert (Hin : In 59 (lit "base64," ++ payload)).
      { change (In 59 (98 :: 97 :: 115 :: 101 :: 54 :: 52 :: 44 :: payload)).
        rewrite E. apply in_elt. }
      apply in_app_or in Hin as [Hin|Hin]; [|contradiction].
      simpl in Hin. repeat (destruct Hin as [Hin|Hin]; [discriminate|]). exact Hin.
Qed.

Lemma parseDataUrl_splits_base64_witness :
  parseDataUrl (lit "data:image/svg+xml;charset=utf-8;base64,PHN2Zz4=")
  = {| mimeType := lit "image/svg+xml;charset=utf-8"; data := lit "PHN2Zz4=" |}.
Proof.
  apply (parseDataUrl_splits_base64 (lit "image/svg+xml;charset=utf-8") (lit "PHN2Zz4=")).
  - discriminate.
  - discriminate.
  - repeat constructor.
  - repeat constructor.
  - simpl. intuition discriminate.
Defined.

Lemma remove_fromStart_suffix (re : regex) (s : jsstring) :
  fromStart re = true -> exists pre, s = pre ++ remove re s.
Proof.
  intros H. unfold remove, exec. rewrite H.
  destruct (matchHere (body re) s) as [[caps tail]|] eqn:Hm; [|now exists []].
  apply matchHere_sound, matches_suffix in Hm as (pre & ->). now exists pre.
Qed.

(** X6. [parseDataUrl] never alters the text: the data it returns is always
    the tail of its input.  On an input of the shape
    [data:<mime>;base64,<payload>] the two parts are non-empty and put back
    together give the input, and where the marker [;base64,] occurs more than
    once the mime type is the longest one possible. *)
Theorem parseDataUrl_keeps_the_text (s : jsstring) :
  (exists pre, s = pre ++ data (parseDataUrl s))
  /\ (dataUrlShape s ->
      dataUrlOf (parseDataUrl s) = s
      /\ mimeType (parseDataUrl s) <> [] /\ data (parseDataUrl s) <> []
      /\ forall m' d',
           s = lit "data:" ++ m' ++ lit ";base64," ++ d' ->
           m' <> [] -> d' <> [] -> all notLineTerminator m' -> all notLineTerminator d' ->
           (length m' <= length (mimeType (parseDataUrl s)))%nat).
Proof.
  assert (Hshape : dataUrlShape s ->
            dataUrlOf (parseDataUrl s) = s
            /\ mimeType (parseDataUrl s) <> [] /\ data (parseDataUrl s) <> []
            /\ forall m' d',
                 s = lit "data:" ++ m' ++ lit ";base64," ++ d' ->
                 m' <> [] -> d' <> [] -> all notLineTerminator m' ->
                 all notLineTerminator d' ->
                 (length m' <= length (mimeType (parseDataUrl s)))%nat).
  { intros H. destruct (parseDataUrl_parts s H) as (m & d & -> & E & Hm & Hd & _ & _ & Hmax).
    unfold dataUrlOf; cbn [mimeType data]. auto. }
  split; [|exact Hshape].
  destruct (captures dataUrlPattern s) as [g|] eqn:Hc.
  - apply dataUrl_captures_shape in Hc. destruct (Hshape Hc) as (E & _).
    exists (lit "data:" ++ mimeType (parseDataUrl s) ++ lit ";base64,").
    unfold dataUrlOf in E. now rewrite <- !app_assoc.
  - unfold parseDataUrl. rewrite Hc. cbn [data].
    now apply remove_fromStart_suffix.
Qed.

Lemma parseDataUrl_keeps_the_text_witness :
  dataUrlOf (parseDataUrl (lit "data:a;base64,b;base64,c")) = lit "data:a;base64,b;base64,c"
  /\ (length (lit "a") <= length (mimeType (parseDataUrl (lit "data:a;base64,b;base64,c"))))%nat.
Proof.
  assert (Hshape : dataUrlShape (lit "data:a;base64,b;base64,c")).
  { exists (lit "a"), (lit "b;base64,c"). repeat split; try discriminate; repeat constructor. }
  destruct (proj2 (parseDataUrl_keeps_the_text (lit "data:a;base64,b;base64,c")) Hshape)
    as (E & _ & _ & Hmax).
  split; [exact E|].
  apply (Hmax (lit "a") (lit "b;base64,c")); try reflexivity; try discriminate;
    repeat constructor.
Defined.

Example parseDataUrl_last_marker :
  parseDataUrl (lit "data:a;base64,b;base64,c")
  = {| mimeType := lit "a;base64,b"; data := lit "c" |}.
Proof. vm_compute. reflexivity. Qed.

(** X7. Text that does not start with [data:] (raw base64, say) is passed
    on whole, labelled [image/jpeg]. *)
Theorem parseDataUrl_passes_raw_text (s : jsstring) :
  ~ (exists r, s = lit "data:" ++ r) ->
  parseDataUrl s = {| mimeType := lit "image/jpeg"; data := s |}.
Proof.
  intros Hraw. rewrite parseDataUrl_fallback.
  - rewrite remove_imagePrefix_keeps; [reflexivity|].
    intros rest (w & -> & _). apply Hraw.
    exists (lit "image/" ++ w ++ lit ";base64," ++ rest). reflexivity.
  - intros (mime & payload & -> & _). apply Hraw. eexists. reflexivity.
Qed.

Lemma parseDataUrl_passes_raw_text_witness :
  parseDataUrl (lit "/9j/4AAQSkZJRg==") = {| mimeType := lit "image/jpeg"; data := lit "/9j/4AAQSkZJRg==" |}.
Proof.
  apply parseDataUrl_passes_raw_text. intros (r & H). discriminate.
Defined.

(** ** Item generation: what comes back and what is thrown *)

Lemma bind_Return {A B} (c : completion A) (k : A -> completion B) (b : B) :
  bind c k = Return b -> exists a, c = Return a /\ k a = Return b.
Proof. destruct c as [a|e]; simpl; [eauto | discriminate]. Qed.

Lemma lit_inj (s s' : string) : lit s = lit s' -> s = s'.
Proof.
  unfold lit. intros H.
  rewrite <- (string_of_list_ascii_of_string s), <- (string_of_list_ascii_of_string s').
  f_equal. revert H. generalize (list_ascii_of_string s) (list_ascii_of_string s').
  induction l as [|a l IH]; intros [|a' l'] H; try discriminate; [reflexivity|].
  simpl in H. injection H as Ha Hl. f_equal; [|now apply IH].
  now rewrite <- (ascii_N_embedding a), <- (ascii_N_embedding a'), Ha.
Qed.

Lemma to_uint_nonnil (n : N) : N.to_uint n <> Decimal.Nil.
Proof. destruct n; [discriminate | apply DecimalPos.Unsigned.to_uint_nonnil]. Qed.

Lemma decimal_inj (n n' : N) : decimal n = decimal n' -> n = n'.
Proof.
  unfold decimal. intros H. apply lit_inj in H.
  apply DecimalN.Unsigned.to_uint_inj.
  pose proof (NilZero.usu _ (to_uint_nonnil n)) as U.
  pose proof (NilZero.usu _ (to_uint_nonnil n')) as U'.
  rewrite H in U. congruence.
Qed.

Lemma batchIds_NoDup (n : nat) : NoDup (batchIds n).
Proof.
  unfold batchIds. apply Finite.Injective_map_NoDup; [|apply seq_NoDup].
  intros i j H. apply app_inv_head, decimal_inj in H. lia.
Qed.

Lemma orElse_truthy (v : value) : truthy (Some (orElse v sentinel)) = true.
Proof.
  unfold orElse. destruct v as [x|]; [|reflexivity].
  destruct (truthy (Some x)) eqn:H; [exact H | reflexivity].
Qed.

Lemma mapItems_Return (E : Engine) (l : list json) :
  forall (index : nat) (result : list BingoItem),
    mapItems E (N.of_nat index) l = Return result ->
    length result = length l
    /\ map id result
       = map (fun i => lit "item-" ++ decimal (N.of_nat i)) (seq index (length l))
    /\ Forall filledIn result
    /\ ~ In JNull l.
Proof.
  induction l as [|item l IH]; intros index result H.
  - injection H as <-. repeat split; [constructor | intros []].
  - cbn [mapItems] in H.
    apply bind_Return in H as (p & Hp & H). apply bind_Return in H as (a & Ha & H).
    apply bind_Return in H as (others & Ho & H). injection H as <-.
    replace (N.of_nat index + 1) with (N.of_nat (S index)) in Ho by lia.
    apply IH in Ho as (Hlen & Hids & Hfilled & Hnull).
    repeat split.
    + simpl. now rewrite Hlen.
    + cbn [map length seq id]. now rewrite Hids.
    + constructor; [|assumption]. split; cbn [problem answer]; apply orElse_truthy.
    + intros [-> | Hin]; [discriminate | contradiction].
Qed.

Lemma itemsOf_Return (E : Engine) (data : json) (result : list BingoItem) :
  itemsOf E data = Return result ->
  map id result = batchIds (length result) /\ Forall filledIn result.
Proof.
  unfold itemsOf. intros H. apply bind_Return in H as (its & _ & H).
  destruct (orElse its (JArray [])) as [| | | |l|]; try discriminate.
  apply (mapItems_Return E l 0) in H as (Hlen & Hids & Hfilled & _).
  unfold batchIds. rewrite Hlen. auto.
Qed.

Lemma generateBingoItems_Return (h : Host) (context : SubjectContext) (topicInput : jsstring)
    (count : JsNumber) (imageBase64 : option jsstring) (mode : Mode) (result : list BingoItem) :
  generateBingoItems h context topicInput count imageBase64 mode = Return result ->
  exists data, itemsOf (engine h) data = Return result.
Proof.
  unfold generateBingoItems. intros H.
  apply bind_Return in H as (ai & _ & H).
  destruct (generateContent h ai _) as [response|e]; cbn [bind tryCatch] in H.
  - destruct (cleanJSON (textOrEmpty response)) as [|c t]; [discriminate|].
    destruct (JSON_parse (engine h) (c :: t)) as [data|e]; cbn [bind tryCatch] in H.
    + exists data. destruct (itemsOf (engine h) data) as [l|e]; [exact H|].
      cbn [tryCatch] in H. destruct (mentionsApiKey e); discriminate.
    + destruct (mentionsApiKey e); discriminate.
  - destruct (mentionsApiKey e); discriminate.
Qed.

(** X8. Whatever list [generateBingoItems] returns, its ids are [item-0],
    [item-1], ... in that order, no two alike, and no item in it has a falsy
    problem or answer (an empty string, say). *)
Theorem generateBingoItems_returns_numbered_filled_items
    (h : Host) (context : SubjectContext) (topicInput : jsstring) (count : JsNumber)
    (imageBase64 : option jsstring) (mode : Mode) (result : list BingoItem) :
  generateBingoItems h context topicInput count imageBase64 mode = Return result ->
  map id result = batchIds (length result)
  /\ NoDup (map id result)
  /\ Forall filledIn result.
Proof.
  intros H. apply generateBingoItems_Return in H as (data & H).
  apply itemsOf_Return in H as (Hids & Hfilled).
  repeat split; try assumption. rewrite Hids. apply batchIds_NoDup.
Qed.

Lemma generateBingoItems_returns_numbered_filled_items_witness :
  exists result,
    generateBingoItems (replying sampleKey (Some patchyItems)) wiskunde (lit "tafels") two None similar
    = Return result
    /\ map id result = [lit "item-0"; lit "item-1"]
    /\ NoDup (map id result)
    /\ Forall filledIn result.
Proof.
  eexists. split; [vm_compute; reflexivity|].
  exact (generateBingoItems_returns_numbered_filled_items
           (replying sampleKey (Some patchyItems)) wiskunde (lit "tafels") two None similar
           _ eq_refl).
Defined.

Lemma generateBingoItems_invalid_key (h : Host) (context : SubjectContext)
    (topicInput : jsstring) (count : JsNumber) (imageBase64 : option jsstring) (mode : Mode)
    (e : JsError) :
  getAIClient (API_KEY h) = Throw e ->
  generateBingoItems h context topicInput count imageBase64 mode = Throw e.
Proof. intros H. unfold generateBingoItems. now rewrite H. Qed.

Lemma generateBingoItems_remote_failure (h : Host) (context : SubjectContext)
    (topicInput : jsstring) (count : JsNumber) (imageBase64 : option jsstring) (mode : Mode)
    (ai : Client) (e : JsError) :
  getAIClient (API_KEY h) = Return ai ->
  generateContent h ai (itemsRequest context topicInput count imageBase64 mode) = Throw e ->
  generateBingoItems h context topicInput count imageBase64 mode = Throw (rethrown e).
Proof.
  intros Hkey Hr. unfold generateBingoItems, rethrown, generationError.
  rewrite Hkey. cbn [bind]. rewrite Hr. cbn [bind tryCatch].
  destruct (mentionsApiKey e); reflexivity.
Qed.

Lemma rethrown_kind (cause : JsError) :
  mentionsApiKey (rethrown cause) = true
  \/ (rethrown cause = generationError cause /\ mentionsApiKey cause = false).
Proof. unfold rethrown. destruct (mentionsApiKey cause) eqn:H; auto. Qed.

(** X9. Every error [generateBingoItems] throws either passes the
    handler's key test (its message contains [API Key]) or is a new error
    [Kon geen items genereren: <message of the cause>] made from a cause
    that does not pass it. *)
Theorem generateBingoItems_throws_two_kinds
    (h : Host) (context : SubjectContext) (topicInput : jsstring) (count : JsNumber)
    (imageBase64 : option jsstring) (mode : Mode) (e : JsError) :
  generateBingoItems h context topicInput count imageBase64 mode = Throw e ->
  mentionsApiKey e = true
  \/ exists cause, e = generationError cause /\ mentionsApiKey cause = false.
Proof.
  unfold generateBingoItems.
  destruct (getAIClient (API_KEY h)) as [ai|e0] eqn:Hkey; cbn [bind].
  - assert (Hhandler : forall body : completion (list BingoItem),
              tryCatch body
                (fun error => if mentionsApiKey error then Throw error
                              else Throw (newError (lit "Kon geen items genereren: "
                                                    ++ message error))) = Throw e ->
              mentionsApiKey e = true
              \/ exists cause, e = generationError cause /\ mentionsApiKey cause = false).
    { intros [l|cause]; cbn [tryCatch]; [discriminate|].
      destruct (mentionsApiKey cause) eqn:Hm; intros H; injection H as <-.
      - left. exact Hm.
      - right. exists cause. split; [reflexivity | exact Hm]. }
    apply Hhandler.
  - intros H. injection H as <-. apply getAIClient_error in Hkey. subst e0. left. reflexivity.
Qed.

Lemma generateBingoItems_throws_two_kinds_witness :
  exists e,
    generateBingoItems (failing sampleKey (newError (lit "503 Service Unavailable")))
      wiskunde (lit "tafels") five None similar = Throw e
    /\ (mentionsApiKey e = true
        \/ exists cause, e = generationError cause /\ mentionsApiKey cause = false).
Proof.
  exists (newError (lit "Kon geen items genereren: 503 Service Unavailable")).
  split; [reflexivity|].
  apply (generateBingoItems_throws_two_kinds
           (failing sampleKey (newError (lit "503 Service Unavailable")))
           wiskunde (lit "tafels") five None similar).
  reflexivity.
Defined.

(** X10. A failed call of the remote service is reported with its own
    message: as it is when the message contains [API Key], and otherwise as
    [Kon geen items genereren: <that message>]; with a missing or invalid key
    the configuration error is thrown whatever the remote service would do. *)
Theorem generateBingoItems_reports_call_failures
    (h : Host) (context : SubjectContext) (topicInput : jsstring) (count : JsNumber)
    (imageBase64 : option jsstring) (mode : Mode) :
  (forall e, getAIClient (API_KEY h) = Throw e ->
     generateBingoItems h context topicInput count imageBase64 mode
     = Throw (newError keyErrorMessage))
  /\ (forall ai e, getAIClient (API_KEY h) = Return ai ->
        generateContent h ai (itemsRequest context topicInput count imageBase64 mode)
        = Throw e ->
        (mentionsApiKey e = true ->
         generateBingoItems h context topicInput count imageBase64 mode = Throw e)
        /\ (mentionsApiKey e = false ->
            generateBingoItems h context topicInput count imageBase64 mode
            = Throw (newError (lit "Kon geen items genereren: " ++ message e)))).
Proof.
  split.
  - intros e He. rewrite (generateBingoItems_invalid_key _ _ _ _ _ _ e He).
    now apply getAIClient_error in He as ->.
  - intros ai e Hkey Hr.
    rewrite (generateBingoItems_remote_failure _ _ _ _ _ _ ai e Hkey Hr). unfold rethrown.
    split; intros ->; reflexivity.
Qed.

Lemma generateBingoItems_reports_call_failures_witness :
  generateBingoItems (failing None (newError (lit "503 Service Unavailable")))
    wiskunde (lit "tafels") five None similar
  = Throw (newError keyErrorMessage)
  /\ generateBingoItems (failing sampleKey (newError (lit "503 Service Unavailable")))
       wiskunde (lit "tafels") five None similar
     = Throw (newError (lit "Kon geen items genereren: 503 Service Unavailable")).
Proof.
  split.
  - apply (proj1 (generateBingoItems_reports_call_failures
                    (failing None (newError (lit "503 Service Unavailable")))
                    wiskunde (lit "tafels") five None similar)
             (newError keyErrorMessage)).
    reflexivity.
  - apply (proj2 (generateBingoItems_reports_call_failures
                    (failing sampleKey (newError (lit "503 Service Unavailable")))
                    wiskunde (lit "tafels") five None similar)
             {| apiKey := sampleKey |} (newError (lit "503 Service Unavailable"))
             eq_refl eq_refl).
    reflexivity.
Defined.

(** X11. A reply that parses to anything but [null] and has no [items], or
    a falsy one ([null], [false], [0], an empty string), gives the empty
    list: no error is raised for it. *)
Theorem generateBingoItems_without_items_returns_nothing
    (h : Host) (context : SubjectContext) (topicInput : jsstring) (count : JsNumber)
    (imageBase64 : option jsstring) (mode : Mode)
    (ai : Client) (response : Response) (data : json) :
  getAIClient (API_KEY h) = Return ai ->
  generateContent h ai (itemsRequest context topicInput count imageBase64 mode) = Return response ->
  parse (cleanJSON (textOrEmpty response)) = Some data ->
  data <> JNull ->
  truthy (fieldOf data (lit "items")) = false ->
  generateBingoItems h context topicInput count imageBase64 mode = Return [].
Proof.
  intros Hkey Hr Hp Hd Hf.
  rewrite (generateBingoItems_decoded h context topicInput count imageBase64 mode ai response
             Hkey Hr data Hp).
  now rewrite (itemsOf_without_items _ _ Hd Hf).
Qed.

Lemma generateBingoItems_without_items_returns_nothing_witness :
  generateBingoItems (replying sampleKey (Some (quoted "{'items':null,'error':'quota'}")))
    wiskunde (lit "tafels") five None similar
  = Return [].
Proof.
  apply (generateBingoItems_without_items_returns_nothing
           (replying sampleKey (Some (quoted "{'items':null,'error':'quota'}")))
           wiskunde (lit "tafels") five None similar
           {| apiKey := sampleKey |}
           {| text := Some (quoted "{'items':null,'error':'quota'}") |}
           (JObject [(lit "items", JNull); (lit "error", JString (lit "quota"))])).
  - reflexivity.
  - reflexivity.
  - vm_compute. reflexivity.
  - discriminate.
  - reflexivity.
Defined.

Lemma mapItems_null (E : Engine) (l : list json) :
  In JNull l -> forall index, mapItems E index l = Throw (nullReadError E (lit "problem")).
Proof.
  induction l as [|item l IH]; intros Hin index; [contradiction|].
  destruct item; try reflexivity;
    (destruct Hin as [Hin|Hin]; [discriminate|]);
    cbn [mapItems getProp bind]; rewrite (IH Hin); reflexivity.
Qed.

(** X12. A reply that parses but has the wrong shape makes item generation
    fail as a whole: the value [null], an [items] that is truthy but no
    array, and an array with a [null] element each raise a [TypeError]
    inside the [try] block, which the handler reports like any other
    failure. *)
Theorem generateBingoItems_rejects_wrong_shapes
    (h : Host) (context : SubjectContext) (topicInput : jsstring) (count : JsNumber)
    (imageBase64 : option jsstring) (mode : Mode)
    (ai : Client) (response : Response) (data : json) :
  getAIClient (API_KEY h) = Return ai ->
  generateContent h ai (itemsRequest context topicInput count imageBase64 mode) = Return response ->
  parse (cleanJSON (textOrEmpty response)) = Some data ->
  (data = JNull ->
   generateBingoItems h context topicInput count imageBase64 mode
   = Throw (rethrown (nullReadError (engine h) (lit "items"))))
  /\ (forall v, fieldOf data (lit "items") = Some v -> truthy (Some v) = true ->
        (forall l, v <> JArray l) ->
        generateBingoItems h context topicInput count imageBase64 mode
        = Throw (rethrown (noMapError (engine h))))
  /\ (forall l, fieldOf data (lit "items") = Some (JArray l) -> In JNull l ->
        generateBingoItems h context topicInput count imageBase64 mode
        = Throw (rethrown (nullReadError (engine h) (lit "problem")))).
Proof.
  intros Hkey Hr Hp.
  rewrite (generateBingoItems_decoded h context topicInput count imageBase64 mode ai response
             Hkey Hr data Hp).
  assert (Hhandler : forall cause,
            tryCatch (Throw cause)
              (fun error => if mentionsApiKey error then Throw error
                            else Throw (generationError error))
            = Throw (rethrown cause) :> completion (list BingoItem)).
  { intros cause. unfold rethrown. cbn [tryCatch]. destruct (mentionsApiKey cause); reflexivity. }
  repeat split.
  - intros ->. apply Hhandler.
  - intros v Hv Ht Harr. unfold itemsOf. rewrite getProp_fieldOf by (intros ->; discriminate).
    rewrite Hv. cbn [bind]. unfold orElse. rewrite Ht.
    destruct v; try apply Hhandler. exfalso. eapply Harr. reflexivity.
  - intros l Hl Hin. rewrite (itemsOf_array _ _ _ Hl), (mapItems_null _ _ Hin). apply Hhandler.
Qed.

Lemma generateBingoItems_rejects_wrong_shapes_witness :
  generateBingoItems (replying sampleKey (Some (quoted "{'items':'geen'}")))
    wiskunde (lit "tafels") five None similar
  = Throw (newError (lit "Kon geen items genereren: itemsArray.map is not a function")).
Proof.
  apply (proj1 (proj2 (generateBingoItems_rejects_wrong_shapes
           (replying sampleKey (Some (quoted "{'items':'geen'}")))
           wiskunde (lit "tafels") five None similar
           {| apiKey := sampleKey |} {| text := Some (quoted "{'items':'geen'}") |}
           (JObject [(lit "items", JString (lit "geen"))])
           eq_refl eq_refl eq_refl))
         (JString (lit "geen"))).
  - reflexivity.
  - reflexivity.
  - discriminate.
Defined.

(** ** Subject detection: what comes back *)

(** X13. With a valid key, [detectSubject] returns whatever JSON value the
    cleaned reply denotes, an array or a number as well as an object: the
    reply is not checked against the [subject]/[isMath] shape.  And it
    returns nothing else but that value or the fallback. *)
Theorem detectSubject_returns_reply_unchecked
    (h : Host) (topic : jsstring) (imageBase64 : option jsstring) (ai : Client) :
  getAIClient (API_KEY h) = Return ai ->
  (forall response v,
      generateContent h ai (subjectRequest topic imageBase64) = Return response ->
      parse (cleanJSON (textOrEmpty response)) = Some v ->
      detectSubject h topic imageBase64 = Return v)
  /\ (forall v, detectSubject h topic imageBase64 = Return v ->
        v = subjectObject Algemeen
        \/ exists response,
             generateContent h ai (subjectRequest topic imageBase64) = Return response
             /\ parse (cleanJSON (textOrEmpty response)) = Some v).
Proof.
  intros Hkey. split.
  - intros response v Hr Hp.
    exact (detectSubject_decoded h topic imageBase64 ai Hkey response Hr v Hp).
  - intros v H.
    destruct (generateContent h ai (subjectRequest topic imageBase64)) as [response|e] eqn:Hr.
    + destruct (cleanJSON (textOrEmpty response)) as [|c t] eqn:Hc.
      * rewrite (detectSubject_empty h topic imageBase64 ai Hkey response Hr Hc) in H.
        left. congruence.
      * destruct (parse (c :: t)) as [v'|] eqn:Hp.
        -- rewrite <- Hc in Hp.
           rewrite (detectSubject_decoded h topic imageBase64 ai Hkey response Hr v' Hp) in H.
           right. exists response. split; [reflexivity | congruence].
        -- pose proof (detectSubject_undecodable h topic imageBase64 ai Hkey response Hr) as U.
           rewrite Hc in U. rewrite U in H; [|discriminate|assumption].
           destruct (mentionsApiKey _); [discriminate | left; congruence].
    + rewrite (detectSubject_remote_failure h topic imageBase64 ai Hkey e Hr) in H.
      destruct (mentionsApiKey e); [discriminate | left; congruence].
Qed.

Lemma detectSubject_returns_reply_unchecked_witness :
  detectSubject (replying sampleKey (Some (fenced (quoted "['Wiskunde', 42]")))) [] None
  = Return (JArray [JString (lit "Wiskunde"); JNumber false 42 0]).
Proof.
  apply (proj1 (detectSubject_returns_reply_unchecked
                  (replying sampleKey (Some (fenced (quoted "['Wiskunde', 42]")))) [] None
                  {| apiKey := sampleKey |} eq_refl)
           {| text := Some (fenced (quoted "['Wiskunde', 42]")) |}).
  - reflexivity.
  - vm_compute. reflexivity.
Defined.

(** ** The second version on its own *)

(** X14. The second version's [detectSubject] never throws, with or without
    a key and whatever the remote service does: it returns the value of the
    reply when the reply text itself is JSON, and the fallback in every other
    case (a failed call, a reply without text, a text that is not JSON). *)
Theorem unvalidated_detectSubject_never_throws
    (h : Host) (topic : jsstring) (imageBase64 : option jsstring) :
  let request := subjectRequest topic imageBase64 in
  let call := generateContent h (GeminiServiceV2.ai h) request in
  (forall response t v,
      call = Return response -> text response = Some t -> parse t = Some v ->
      GeminiServiceV2.detectSubject h topic imageBase64 = Return v)
  /\ (forall response t,
        call = Return response -> text response = Some t -> parse t = None ->
        GeminiServiceV2.detectSubject h topic imageBase64 = Return (subjectObject Algemeen))
  /\ (forall response,
        call = Return response -> text response = None ->
        GeminiServiceV2.detectSubject h topic imageBase64 = Return (subjectObject Algemeen))
  /\ (forall e,
        call = Throw e ->
        GeminiServiceV2.detectSubject h topic imageBase64 = Return (subjectObject Algemeen))
  /\ exists v, GeminiServiceV2.detectSubject h topic imageBase64 = Return v.
Proof.
  intros request call. subst request call.
  unfold GeminiServiceV2.detectSubject.
  destruct (generateContent h (GeminiServiceV2.ai h) (subjectRequest topic imageBase64))
    as [response|e] eqn:Hr; cbn [bind tryCatch].
  - destruct (text response) as [[|c t]|] eqn:Ht; cbn [bind tryCatch].
    + repeat split; try discriminate; eauto.
      intros response' t' v E. injection E as <-. rewrite Ht. intros Et. injection Et as <-.
      rewrite parse_empty. discriminate.
    + unfold JSON_parse. destruct (parse (c :: t)) as [v|] eqn:Hp; cbn [bind tryCatch].
      * repeat split; try discriminate; eauto.
        -- intros response' t' v' E. injection E as <-. rewrite Ht. intros Et.
           injection Et as <-. rewrite Hp. congruence.
        -- intros response' t' E. injection E as <-. rewrite Ht. intros Et.
           injection Et as <-. rewrite Hp. discriminate.
        -- intros response' E. injection E as <-. rewrite Ht. discriminate.
      * repeat split; try discriminate; eauto.
        intros response' t' v' E. injection E as <-. rewrite Ht. intros Et.
        injection Et as <-. rewrite Hp. discriminate.
    + repeat split; try discriminate; eauto.
      intros response' t' v E. injection E as <-. rewrite Ht. discriminate.
  - repeat split; try discriminate; eauto.
Qed.

Lemma unvalidated_detectSubject_never_throws_witness :
  GeminiServiceV2.detectSubject (replying None (Some wiskundeReply)) (lit "breuken") None
  = Return (subjectObject wiskunde)
  /\ GeminiServiceV2.detectSubject (replying None (Some (fenced wiskundeReply)))
       (lit "breuken") None
     = Return (subjectObject Algemeen).
Proof.
  split.
  - apply (proj1 (unvalidated_detectSubject_never_throws
                    (replying None (Some wiskundeReply)) (lit "breuken") None)
             {| text := Some wiskundeReply |} wiskundeReply).
    + reflexivity.
    + reflexivity.
    + vm_compute. reflexivity.
  - apply (proj1 (proj2 (unvalidated_detectSubject_never_throws
                           (replying None (Some (fenced wiskundeReply))) (lit "breuken") None))
             {| text := Some (fenced wiskundeReply) |} (fenced wiskundeReply)).
    + reflexivity.
    + reflexivity.
    + vm_compute. reflexivity.
Defined.

(** X15. The second version's [generateBingoItems] has one error for every
    failure, [Kon geen items genereren. Probeer het opnieuw.], and the lists
    it returns are numbered and filled like those of the first version. *)
Theorem unvalidated_generateBingoItems_outcomes
    (h : Host) (context : SubjectContext) (topicInput : jsstring) (count : JsNumber)
    (imageBase64 : option jsstring) (mode : Mode) :
  (forall e, GeminiServiceV2.generateBingoItems h context topicInput count imageBase64 mode
             = Throw e -> e = retryError)
  /\ (forall result,
        GeminiServiceV2.generateBingoItems h context topicInput count imageBase64 mode
        = Return result ->
        map id result = batchIds (length result)
        /\ NoDup (map id result) /\ Forall filledIn result).
Proof.
  unfold GeminiServiceV2.generateBingoItems.
  set (body := bind _ _). split.
  - intros e. destruct body; cbn [tryCatch]; [discriminate|]. intros H. now injection H as <-.
  - intros result. destruct body as [l|e] eqn:Hb; cbn [tryCatch]; [|discriminate].
    intros H. injection H as ->. subst body.
    apply bind_Return in Hb as (response & _ & Hb).
    destruct (text response) as [[|c t]|]; try discriminate.
    apply bind_Return in Hb as (data & _ & Hb).
    apply itemsOf_Return in Hb as (Hids & Hfilled).
    repeat split; try assumption. rewrite Hids. apply batchIds_NoDup.
Qed.

Lemma unvalidated_generateBingoItems_outcomes_witness :
  exists e,
    GeminiServiceV2.generateBingoItems (replying None (Some (fenced fiveItems)))
      wiskunde (lit "tafels") five None similar = Throw e
    /\ e = retryError.
Proof.
  exists (newError (lit "Kon geen items genereren. Probeer het opnieuw.")).
  split; [vm_compute; reflexivity|].
  apply (proj1 (unvalidated_generateBingoItems_outcomes
                  (replying None (Some (fenced fiveItems))) wiskunde (lit "tafels") five None similar)).
  vm_compute. reflexivity.
Defined.

(** ** The requests *)

Lemma includes_at_start (needle hay rest : jsstring) :
  dropPrefix needle hay = Some rest -> includes needle hay = true.
Proof. intros H. destruct hay; cbn [includes]; now rewrite H. Qed.

Lemma includes_later (needle pre hay : jsstring) :
  includes needle hay = true -> includes needle (pre ++ hay) = true.
Proof.
  intros H. induction pre as [|c pre IH]; [assumption|].
  simpl app. cbn [includes]. rewrite IH. now destruct (dropPrefix needle (c :: pre ++ hay)).
Qed.

Lemma includes_infix (needle pre post : jsstring) :
  includes needle (pre ++ needle ++ post) = true.
Proof. apply includes_later. eapply includes_at_start. apply dropPrefix_app. Qed.

Lemma includes_between (needle hay pre post : jsstring) :
  hay = pre ++ needle ++ post -> includes needle hay = true.
Proof. intros ->. apply includes_infix. Qed.

(** X16. What the caller passes reaches the model: the subject prompt
    quotes the topic as it is; the user prompt of item generation states the
    count, as the number converts to a string, in each of its three wordings
    and, without an image, quotes the topic; the system instruction names the
    subject and the count. *)
Theorem prompts_carry_the_inputs :
  (forall topic, includes ([dquote] ++ topic ++ [dquote]) (subjectPrompt topic) = true)
  /\ (forall topicInput count imageBase64 mode,
        includes (numberText count) (userPromptText topicInput count imageBase64 mode) = true)
  /\ (forall topicInput count mode,
        includes ([dquote] ++ topicInput ++ [dquote])
          (userPromptText topicInput count None mode) = true)
  /\ (forall context count,
        includes (subject context) (itemsSystemInstruction context count) = true
        /\ includes (numberText count) (itemsSystemInstruction context count) = true).
Proof.
  split; [|split; [|split]].
  - intros topic. unfold subjectPrompt.
    eapply (includes_between _ _ (lit "Analyseer de input (tekst: ")).
    rewrite <- !app_assoc. reflexivity.
  - intros topicInput count imageBase64 mode. unfold userPromptText.
    destruct (hasImage imageBase64); [destruct mode|].
    + apply includes_infix.
    + apply includes_infix.
    + eapply (includes_between _ _
                (lit "Onderwerp: " ++ [dquote] ++ topicInput ++ [dquote]
                 ++ lit ". Genereer precies ")).
      rewrite <- !app_assoc. reflexivity.
  - intros topicInput count mode. unfold userPromptText. cbn [hasImage].
    eapply (includes_between _ _ (lit "Onderwerp: ")).
    rewrite <- !app_assoc. reflexivity.
  - intros context count. unfold itemsSystemInstruction, joinLines.
    cbn [flat_map]. split.
    + eapply (includes_between _ _ (newline ++ lit "    Je bent een docent voor het vak ")).
      rewrite <- !app_assoc. reflexivity.
    + eapply (includes_between _ _
                (newline ++ lit "    Je bent een docent voor het vak " ++ subject context
                 ++ lit "." ++ newline ++ lit "    Genereer output voor een Bingo spel."
                 ++ newline ++ lit "    " ++ formatInstruction context
                 ++ newline ++ lit "    Variatie: Zorg voor minimaal ")).
      rewrite <- !app_assoc. reflexivity.
Qed.

(** X17. How image, topic and mode enter the requests.  An empty image
    string counts as no image, and without an image the mode changes
    nothing; with an image the topic text is not sent for item generation,
    and the image part (as [parseDataUrl] splits it) comes before the one
    text part. *)
Theorem requests_select_their_inputs
    (context : SubjectContext) (topic : jsstring) (count : JsNumber) (mode : Mode) :
  subjectRequest topic (Some []) = subjectRequest topic None
  /\ (forall mode',
        itemsRequest context topic count (Some []) mode
        = itemsRequest context topic count None mode'
        /\ contents (itemsRequest context topic count None mode)
           = [Text (userPromptText topic count None mode')])
  /\ (forall c image topic',
        itemsRequest context topic count (Some (c :: image)) mode
        = itemsRequest context topic' count (Some (c :: image)) mode
        /\ contents (itemsRequest context topic count (Some (c :: image)) mode)
           = [Inline (parseDataUrl (c :: image));
              Text (userPromptText topic count (Some (c :: image)) mode)]
        /\ contents (subjectRequest topic (Some (c :: image)))
           = [Inline (parseDataUrl (c :: image)); Text (subjectPrompt topic)]).
Proof.
  split; [reflexivity|]. split.
  - intros mode'. destruct mode, mode'; split; reflexivity.
  - intros c image topic'. destruct mode; repeat split; reflexivity.
Qed.

(** ** Cleaning and decoding together *)

(** X18. Cleaning never spoils a reply that is JSON as it stands: the
    cleaned text is not empty and [JSON.parse] gives the same value for it. *)
Theorem cleanJSON_preserves_json (s : jsstring) (v : json) :
  parse s = Some v -> cleanJSON s <> [] /\ parse (cleanJSON s) = Some v.
Proof.
  intros H. pose proof (parse_cleanJSON s v H) as Hc. split; [|exact Hc].
  intros E. rewrite E, parse_empty in Hc. discriminate.
Qed.

Lemma cleanJSON_preserves_json_witness :
  cleanJSON (quoted "  {'items': []}  ") <> []
  /\ parse (cleanJSON (quoted "  {'items': []}  ")) = Some (JObject [(lit "items", JArray [])]).
Proof.
  apply (cleanJSON_preserves_json (quoted "  {'items': []}  ")). vm_compute. reflexivity.
Defined.
